(** * A* path finding on a 2D grid: a shallow embedding of
      [node.py], [edge.py] and [a_star.py] and its verification.

    Python integers are modelled by [Z], Python floats by the kernel's
    binary64 numbers ([PrimFloat.float]), Python lists by [list], raised
    exceptions by the [Raise] constructor of [outcome].

    [AStar.__do_search] calls itself once per visited cell, and the
    interpreter allows a bounded depth of calls only. The [fuel] argument
    of [AStar.do_search] and [AStar.search] is this bound: the number of
    nested calls of [__do_search] the recursion limit of the interpreter
    leaves room for. When a search needs more, Python raises
    [RecursionError]; this is the third constructor of [outcome]. *)

From Stdlib Require Import String ZArith List Bool Lia Floats Permutation Sorted.
Import ListNotations.
Local Open Scope Z_scope.

(* ================================================================== *)
(** * Exceptions and the error monad *)
(* ================================================================== *)

Inductive exn : Type :=
| IndexError
| ValueError
| AttributeError
| Exception (msg : string)
| InvalidLayoutInitializationException (msg : string)
| PathNotFoundException (msg : string).

(** What a call ends with: a returned value, an exception the code or a
    list operation raises, or the [RecursionError] of the interpreter
    when the calls nest deeper than its recursion limit allows. *)
Inductive outcome (A : Type) : Type :=
| Ret (a : A)
| Raise (e : exn)
| RecursionError.

Arguments Ret {A} a.
Arguments Raise {A} e.
Arguments RecursionError {A}.

Definition bind {A B : Type} (c : outcome A) (k : A -> outcome B) : outcome B :=
  match c with
  | Ret a => k a
  | Raise e => Raise e
  | RecursionError => RecursionError
  end.

Notation "x <- c ;; k" := (bind c (fun x => k))
  (at level 61, c at next level, right associativity).
Notation "' p <- c ;; k" := (bind c (fun p => k))
  (at level 61, p pattern, c at next level, right associativity).

(** A [for] loop whose body may raise. *)
Fixpoint foldM {A B : Type} (f : B -> A -> outcome B) (l : list A) (b : B)
  : outcome B :=
  match l with
  | [] => Ret b
  | a :: l' => b' <- f b a ;; foldM f l' b'
  end.

(** [l[i]] for a non-negative index. *)
Definition getitem {A : Type} (l : list A) (i : nat) : outcome A :=
  match nth_error l i with
  | Some a => Ret a
  | None => Raise IndexError
  end.

(** [l[i] = v] for a non-negative index. *)
Fixpoint setitem {A : Type} (l : list A) (i : nat) (v : A) : outcome (list A) :=
  match l, i with
  | [], _ => Raise IndexError
  | _ :: l', O => Ret (v :: l')
  | a :: l', S i' => l'' <- setitem l' i' v ;; Ret (a :: l'')
  end.

(** Conversion of a Python [int] to a [float]: rounding to nearest, ties
    to even. Python raises [OverflowError] above [2^1024]; a coordinate
    is an index of a list, hence below [2^63], and the argument of
    [math.sqrt] in [__calc_h] stays below [2^127]. *)
Definition float_of_Z (z : Z) : float :=
  SF2Prim (binary_normalize prec emax z 0 false).

(* ================================================================== *)
(** * node.py and edge.py *)
(* ================================================================== *)

Inductive NodeType : Type := BLANK | START | END | OBSTACLE.

Inductive Node : Type :=
  mkNode (x y : Z) (node_type : NodeType) (edge_to_parent : option Edge)
with Edge : Type :=
  mkEdge (target : Node) (g h : float) (is_diagonal : bool).

Module NodeType.

Definition value (t : NodeType) : Z :=
  match t with BLANK => 0 | START => 1 | END => 2 | OBSTACLE => 3 end.

Definition members : list NodeType := [BLANK; START; END; OBSTACLE].

Definition eqb (s t : NodeType) : bool := value s =? value t.

(** [NodeType(value)]: the member with that value, [ValueError] if none. *)
Definition of_value (v : Z) : outcome NodeType :=
  match find (fun t => value t =? v) members with
  | Some t => Ret t
  | None => Raise ValueError
  end.

Definition from_value (v : Z) : outcome NodeType :=
  let maxValue := fold_right Z.max 0 (map value members) in
  if v >? maxValue then of_value maxValue else of_value v.

End NodeType.

Module Edge.

Definition target (e : Edge) : Node := let 'mkEdge t _ _ _ := e in t.
Definition g (e : Edge) : float := let 'mkEdge _ a _ _ := e in a.
Definition h (e : Edge) : float := let 'mkEdge _ _ a _ := e in a.
Definition is_diagonal (e : Edge) : bool := let 'mkEdge _ _ _ d := e in d.

Definition get_f (e : Edge) : float := (g e + h e)%float.

End Edge.

Module Node.

Definition x (n : Node) : Z := let 'mkNode a _ _ _ := n in a.
Definition y (n : Node) : Z := let 'mkNode _ a _ _ := n in a.
Definition node_type (n : Node) : NodeType := let 'mkNode _ _ t _ := n in t.
Definition edge_to_parent (n : Node) : option Edge :=
  let 'mkNode _ _ _ e := n in e.

Definition empty : Node := mkNode 0 0 BLANK None.

Definition is_start (n : Node) : bool := NodeType.eqb (node_type n) START.
Definition is_end (n : Node) : bool := NodeType.eqb (node_type n) END.
Definition is_obstacle (n : Node) : bool := NodeType.eqb (node_type n) OBSTACLE.

Definition has_edge_to_parent (n : Node) : bool :=
  match edge_to_parent n with None => false | Some _ => true end.

(** [dataclasses.replace]: a new node, the receiver is left as it was. *)
Definition set_edge_to_parent (n : Node) (edge : option Edge) : Node :=
  mkNode (x n) (y n) (node_type n) edge.

(** [__eq__]: coordinates only. *)
Definition eqb (n m : Node) : bool := (x n =? x m) && (y n =? y m).

(** [node.edge_to_parent.<attr>]: [AttributeError] on [None]. *)
Definition the_edge (n : Node) : outcome Edge :=
  match edge_to_parent n with
  | Some e => Ret e
  | None => Raise AttributeError
  end.

End Node.

(** ** Python list operations under [Node.__eq__] *)

(** [n in l] *)
Definition contains (l : list Node) (n : Node) : bool :=
  existsb (fun m => Node.eqb m n) l.

(** [l.remove(n)]: drops the first element equal to [n]. *)
Fixpoint remove (l : list Node) (n : Node) : outcome (list Node) :=
  match l with
  | [] => Raise ValueError
  | m :: l' =>
      if Node.eqb m n then Ret l'
      else l'' <- remove l' n ;; Ret (m :: l'')
  end.

(** [l.index(n)]: position of the first element equal to [n]. *)
Fixpoint index (l : list Node) (n : Node) : outcome nat :=
  match l with
  | [] => Raise ValueError
  | m :: l' =>
      if Node.eqb m n then Ret O
      else i <- index l' n ;; Ret (S i)
  end.

(* ================================================================== *)
(** * a_star.py *)
(* ================================================================== *)

(** [__open_list] and [__closed_list] are class attributes, one list
    object each for all instances: the two fields hold what these lists
    contain when the instance looks at them. The constructor does not
    touch them, and [search] clears both before it reads them. *)
Record AStar : Type := mkAStar {
  layout : list (list Node);
  node_start : Node;
  node_end : Node;
  open_list : list Node;
  closed_list : list Node
}.

Module AStar.

(** ** [__init__]

    The source first fills the layout with [Node.empty ()] and then
    assigns every cell in row-major order; the rows are built here in the
    same order, one node at a time. An exception leaves no instance. *)

(** The state of the scan: the last start and the last end node seen. *)
Abbreviation scan := (option Node * option Node)%type (only parsing).

Definition init_cell (arr2d : list (list Z)) (ix : nat)
    (acc : list Node * scan) (iy : nat) : outcome (list Node * scan) :=
  let '(row, (s, e)) := acc in
  line <- getitem arr2d ix ;;
  code <- getitem line iy ;;
  t <- NodeType.from_value code ;;
  let node := mkNode (Z.of_nat ix) (Z.of_nat iy) t None in
  Ret (row ++ [node],
       (if Node.is_start node then Some node else s,
        if Node.is_end node then Some node else e)).

Definition init_row (arr2d : list (list Z)) (yLen : nat)
    (acc : list (list Node) * scan) (ix : nat)
  : outcome (list (list Node) * scan) :=
  let '(rows, se) := acc in
  '(row, se') <- foldM (init_cell arr2d ix) (seq 0 yLen) ([], se) ;;
  Ret (rows ++ [row], se').

(** [__init__] when the lists of the class hold [shared_open] and
    [shared_closed]: it assigns the layout, the start and the end node,
    and leaves the two lists as they are. *)
Definition init_shared (shared_open shared_closed : list Node)
    (arr2d : list (list Z)) : outcome AStar :=
  row0 <- getitem arr2d 0 ;;
  let xLen := length arr2d in
  let yLen := length row0 in
  '(rows, (s, e)) <- foldM (init_row arr2d yLen) (seq 0 xLen) ([], (None, None)) ;;
  match s with
  | None => Raise (InvalidLayoutInitializationException "No start found."%string)
  | Some ns =>
      match e with
      | None => Raise (InvalidLayoutInitializationException "No end found."%string)
      | Some ne => Ret (mkAStar rows ns ne shared_open shared_closed)
      end
  end.

(** The constructor before any search has run: the lists of the class
    are the empty lists of the class body. *)
Definition init (arr2d : list (list Z)) : outcome AStar :=
  init_shared [] [] arr2d.

(** ** Accessors *)

Definition get_len_x (a : AStar) : Z := Z.of_nat (length (layout a)).

Definition get_len_y (a : AStar) : outcome Z :=
  row0 <- getitem (layout a) 0 ;; Ret (Z.of_nat (length row0)).

(** [or] evaluates its operands from left to right and stops at the first
    true one. *)
Definition is_in_bounds (a : AStar) (i j : Z) : outcome bool :=
  if (i <? 0) || (i >? get_len_x a - 1) || (j <? 0) then Ret false
  else ly <- get_len_y a ;; Ret (negb (j >? ly - 1)).

Definition get_node_or_none (a : AStar) (i j : Z) : outcome (option Node) :=
  inb <- is_in_bounds a i j ;;
  if inb then
    row <- getitem (layout a) (Z.to_nat i) ;;
    n <- getitem row (Z.to_nat j) ;;
    Ret (Some n)
  else Ret None.

Definition aligned_coordinates (node : Node) : list (Z * Z * bool) :=
  [ (Node.x node - 1, Node.y node + 1, true);
    (Node.x node, Node.y node + 1, false);
    (Node.x node + 1, Node.y node + 1, true);
    (Node.x node + 1, Node.y node, false);
    (Node.x node + 1, Node.y node - 1, true);
    (Node.x node, Node.y node - 1, false);
    (Node.x node - 1, Node.y node - 1, true);
    (Node.x node - 1, Node.y node, false) ].

Definition get_neighbours (a : AStar) (node : Node)
  : outcome (list (Node * bool)) :=
  foldM (fun result '(i, j, d) =>
           nb <- get_node_or_none a i j ;;
           match nb with
           | Some n => Ret (result ++ [(n, d)])
           | None => Ret result
           end)
        (aligned_coordinates node) [].

(** ** Scores *)

Definition get_f_or_zero_if_start (node : Node) : outcome float :=
  if NodeType.eqb (Node.node_type node) START then Ret 0%float
  else e <- Node.the_edge node ;; Ret (Edge.get_f e).

Definition calc_g (parent : Node) (is_diagonal : bool) : outcome float :=
  if negb (Node.has_edge_to_parent parent)
     && NodeType.eqb (Node.node_type parent) START then Ret 0%float
  else if negb (Node.has_edge_to_parent parent) then
    Raise (Exception "No edge found."%string)
  else
    let value := if is_diagonal then 14%float else 10%float in
    e <- Node.the_edge parent ;; Ret (Edge.g e + value)%float.

Definition calc_h (a : AStar) (node : Node) : float :=
  let dx := Node.x (node_end a) - Node.x node in
  let dy := Node.y (node_end a) - Node.y node in
  PrimFloat.sqrt (float_of_Z (dx * dx + dy * dy)).

(** [min(l, key=...)]: the first element whose key is strictly below the
    keys of all elements before it. *)
Fixpoint min_from (key : Node -> outcome float) (best : Node) (kbest : float)
    (l : list Node) : outcome Node :=
  match l with
  | [] => Ret best
  | n :: l' =>
      k <- key n ;;
      if (k <? kbest)%float then min_from key n k l'
      else min_from key best kbest l'
  end.

Definition min_key (key : Node -> outcome float) (l : list Node)
  : outcome Node :=
  match l with
  | [] => Raise ValueError
  | n :: l' => k <- key n ;; min_from key n k l'
  end.

(** ** [search] and [__do_search] *)

Definition set_open_list (a : AStar) (l : list Node) : AStar :=
  mkAStar (layout a) (node_start a) (node_end a) l (closed_list a).

Definition set_closed_list (a : AStar) (l : list Node) : AStar :=
  mkAStar (layout a) (node_start a) (node_end a) (open_list a) l.

Definition set_node_end (a : AStar) (n : Node) : AStar :=
  mkAStar (layout a) (node_start a) n (open_list a) (closed_list a).

(** The body of the [for] loop over the neighbours of [current]. *)
Definition visit (current : Node) (a : AStar) (nb : Node * bool)
  : outcome AStar :=
  let '(neighbour, is_diagonal) := nb in
  if Node.is_obstacle neighbour || contains (closed_list a) neighbour
  then Ret a
  else
    gc <- calc_g current is_diagonal ;;
    let neighbour_with_edge :=
      Node.set_edge_to_parent neighbour
        (Some (mkEdge current gc (calc_h a neighbour) is_diagonal)) in
    if negb (contains (open_list a) neighbour_with_edge) then
      Ret (set_open_list a (open_list a ++ [neighbour_with_edge]))
    else
      index_of_other <- index (open_list a) neighbour_with_edge ;;
      e1 <- Node.the_edge neighbour_with_edge ;;
      other <- getitem (open_list a) index_of_other ;;
      e2 <- Node.the_edge other ;;
      if (Edge.g e1 <? Edge.g e2)%float then
        l <- setitem (open_list a) index_of_other neighbour_with_edge ;;
        Ret (set_open_list a l)
      else Ret a.

(** One call of [__do_search] up to its recursive call: [inl] is a
    returned result, [inr] the state the recursive call starts from. *)
Definition do_search_body (a : AStar) : outcome (bool * AStar + AStar) :=
  if (length (open_list a) <=? 0)%nat then Ret (inl (false, a))
  else
    current <- min_key get_f_or_zero_if_start (open_list a) ;;
    l <- remove (open_list a) current ;;
    let a1 := set_closed_list (set_open_list a l) (closed_list a ++ [current]) in
    if Node.is_end current then Ret (inl (true, set_node_end a1 current))
    else
      nbs <- get_neighbours a1 current ;;
      a2 <- foldM (visit current) nbs a1 ;;
      Ret (inr a2).

(** [fuel] is the number of nested calls of [__do_search] the recursion
    limit of the interpreter leaves room for; one call more ends the
    search with [RecursionError]. *)
Fixpoint do_search (fuel : nat) (a : AStar) : outcome (bool * AStar) :=
  match fuel with
  | O => RecursionError
  | S fuel' =>
      r <- do_search_body a ;;
      match r with
      | inl res => Ret res
      | inr a' => do_search fuel' a'
      end
  end.

(** The first four statements of [search]. The node returned by
    [set_edge_to_parent] is dropped, as in the source. *)
Definition search_reset (a : AStar) : AStar :=
  let _ := Node.set_edge_to_parent (node_end a) None in
  mkAStar (layout a) (node_start a) (node_end a) [node_start a] [].

Definition search (fuel : nat) (a : AStar) : outcome (bool * AStar) :=
  do_search fuel (search_reset a).

(** ** [get_result] *)

(** The [while] loop of [get_result]: the coordinates in the order in
    which they are appended. *)
Fixpoint backtrack (parent : Node) : list (Z * Z) :=
  match Node.edge_to_parent parent with
  | Some e =>
      if negb (Node.is_start parent)
      then (Node.x parent, Node.y parent) :: backtrack (Edge.target e)
      else []
  | None => []
  end.

Definition get_result (a : AStar) : outcome (list (Z * Z)) :=
  if negb (Node.has_edge_to_parent (node_end a)) then
    Raise (PathNotFoundException "Call search first."%string)
  else
    e <- Node.the_edge (node_end a) ;;
    Ret (rev (backtrack (Edge.target e))).

End AStar.

(* ================================================================== *)
(** * Vocabulary of the specification *)
(* ================================================================== *)

Definition coords (n : Node) : Z * Z := (Node.x n, Node.y n).

(** The cell of a layout at a coordinate, [None] outside the grid. *)
Definition node_at (lay : list (list Node)) (p : Z * Z) : option Node :=
  if (0 <=? fst p) && (0 <=? snd p) then
    match nth_error lay (Z.to_nat (fst p)) with
    | Some row => nth_error row (Z.to_nat (snd p))
    | None => None
    end
  else None.

Definition kind_at (lay : list (list Node)) (p : Z * Z) : option NodeType :=
  option_map Node.node_type (node_at lay p).

(** A cell of the grid that is not an obstacle. *)
Definition free_cell (lay : list (list Node)) (p : Z * Z) : bool :=
  match node_at lay p with
  | Some n => negb (Node.is_obstacle n)
  | None => false
  end.

Definition chebyshev (p q : Z * Z) : Z :=
  Z.max (Z.abs (fst p - fst q)) (Z.abs (snd p - snd q)).

(** Orthogonal or diagonal neighbours. *)
Definition adjacent8 (p q : Z * Z) : Prop := chebyshev p q = 1.

(** The sequence of cells [p, q1, ..., qk]: every cell lies in the grid
    and is no obstacle, consecutive cells are 8-adjacent. *)
Fixpoint walk_ok (lay : list (list Node)) (p : Z * Z) (qs : list (Z * Z))
  : Prop :=
  free_cell lay p = true /\
  match qs with
  | [] => True
  | q :: qs' => adjacent8 p q /\ walk_ok lay q qs'
  end.

(** There is such a sequence from [p] to [q]. *)
Definition connected (lay : list (list Node)) (p q : Z * Z) : Prop :=
  exists qs, walk_ok lay p qs /\ last qs p = q.

(** The number of cells of the grid. *)
Definition cells (a : AStar) : nat :=
  (length (layout a) * length (hd [] (layout a)))%nat.

(** The kind an input code stands for. *)
Definition decode (v : Z) : NodeType :=
  if v =? 0 then BLANK
  else if v =? 1 then START
  else if v =? 2 then END
  else OBSTACLE.

(** All rows have the length of the first one. *)
Definition rectangular {A : Type} (arr : list (list A)) : Prop :=
  Forall (fun row => length row = length (hd [] arr)) arr.

Definition non_negative (arr2d : list (list Z)) : Prop :=
  Forall (Forall (fun v => 0 <= v)) arr2d.

(** Some cell of the array decodes to kind [t]. *)
Definition has_kind (t : NodeType) (arr2d : list (list Z)) : Prop :=
  exists row v, In row arr2d /\ In v row /\ NodeType.from_value v = Ret t.

(** The instance after [k] calls of [search], with the results of the
    calls in order. *)
Fixpoint searches (fuel : nat) (k : nat) (a : AStar)
  : outcome (list bool * AStar) :=
  match k with
  | O => Ret ([], a)
  | S k' =>
      '(b, a1) <- AStar.search fuel a ;;
      '(bs, a2) <- searches fuel k' a1 ;;
      Ret (b :: bs, a2)
  end.

Definition example_grid : list (list Z) :=
  [ [0; 0; 0; 0; 0; 0; 0];
    [0; 0; 0; 3; 0; 0; 0];
    [0; 1; 0; 3; 0; 2; 0];
    [0; 0; 0; 3; 0; 0; 0];
    [0; 0; 0; 0; 0; 0; 0] ].

(* ================================================================== *)
(** * Basic facts *)
(* ================================================================== *)

Ltac inv H := inversion H; subst; clear H.

Lemma bind_Ret {A B : Type} (c : outcome A) (k : A -> outcome B) (b : B) :
  bind c k = Ret b -> exists a, c = Ret a /\ k a = Ret b.
Proof. destruct c; simpl; intros H; try discriminate. eauto. Qed.

Lemma NodeType_eqb_eq (s t : NodeType) : NodeType.eqb s t = true <-> s = t.
Proof.
  unfold NodeType.eqb. rewrite Z.eqb_eq.
  split; [|congruence]. destruct s, t; simpl; congruence.
Qed.

Lemma NodeType_eqb_neq (s t : NodeType) : NodeType.eqb s t = false <-> s <> t.
Proof.
  rewrite <- NodeType_eqb_eq. destruct (NodeType.eqb s t); split; congruence.
Qed.

Lemma Node_eqb_coords (n m : Node) : Node.eqb n m = true <-> coords n = coords m.
Proof.
  unfold Node.eqb, coords. rewrite andb_true_iff, !Z.eqb_eq.
  split; [intros []; congruence | intros H; inv H; auto].
Qed.

Lemma contains_iff (l : list Node) (n : Node) :
  contains l n = true <-> In (coords n) (map coords l).
Proof.
  unfold contains. rewrite existsb_exists, in_map_iff.
  split; intros (m & H1 & H2).
  - apply Node_eqb_coords in H2. eauto.
  - exists m. split; [tauto|]. apply Node_eqb_coords. tauto.
Qed.

Lemma contains_false_iff (l : list Node) (n : Node) :
  contains l n = false <-> ~ In (coords n) (map coords l).
Proof.
  rewrite <- contains_iff. destruct (contains l n); split; congruence.
Qed.

Lemma from_value_decode (v : Z) : 0 <= v -> NodeType.from_value v = Ret (decode v).
Proof.
  intros Hv. unfold NodeType.from_value, decode.
  change (fold_right Z.max 0 (map NodeType.value NodeType.members)) with 3.
  destruct (v >? 3) eqn:Hgt.
  - assert (3 < v) by lia.
    destruct (v =? 0) eqn:E0; [lia|].
    destruct (v =? 1) eqn:E1; [lia|].
    destruct (v =? 2) eqn:E2; [lia|]. reflexivity.
  - assert (v = 0 \/ v = 1 \/ v = 2 \/ v = 3) as [-> | [-> | [-> | ->]]] by lia;
      reflexivity.
Qed.

(* ================================================================== *)
(** * The constructor *)
(* ================================================================== *)

(** What the two loops of [__init__] build, as functions of the input. *)
Fixpoint row_from (ix iy : nat) (line : list Z) : list Node :=
  match line with
  | [] => []
  | v :: line' =>
      mkNode (Z.of_nat ix) (Z.of_nat iy) (decode v) None :: row_from ix (S iy) line'
  end.

Fixpoint rows_from (ix : nat) (arr2d : list (list Z)) : list (list Node) :=
  match arr2d with
  | [] => []
  | line :: arr' => row_from ix 0 line :: rows_from (S ix) arr'
  end.

Definition scan_node (se : AStar.scan) (node : Node) : AStar.scan :=
  (if Node.is_start node then Some node else fst se,
   if Node.is_end node then Some node else snd se).

Definition scan_nodes (nodes : list Node) (se : AStar.scan) : AStar.scan :=
  fold_left scan_node nodes se.

Lemma skipn_nth_error {A : Type} (l : list A) (k : nat) (v : A) :
  nth_error l k = Some v -> skipn k l = v :: skipn (S k) l.
Proof.
  revert k. induction l as [|a l IH]; intros [|k] H; simpl in *; try discriminate.
  - congruence.
  - rewrite (IH k H). reflexivity.
Qed.

Lemma nth_error_lt_Some {A : Type} (l : list A) (k : nat) :
  (k < length l)%nat -> exists v, nth_error l k = Some v.
Proof.
  intros H. destruct (nth_error l k) eqn:E; eauto.
  apply nth_error_None in E. lia.
Qed.

Section Constructor.

Variable arr2d : list (list Z).
Hypothesis Hnonneg : non_negative arr2d.

Lemma init_cells (ix : nat) (line : list Z) :
  nth_error arr2d ix = Some line ->
  forall n k row se, (k + n = length line)%nat ->
    foldM (AStar.init_cell arr2d ix) (seq k n) (row, se) =
    Ret (row ++ row_from ix k (skipn k line),
         scan_nodes (row_from ix k (skipn k line)) se).
Proof.
  intros Hline.
  assert (Hpos : Forall (fun v => 0 <= v) line).
  { unfold non_negative in Hnonneg. rewrite Forall_forall in Hnonneg.
    apply Hnonneg. eapply nth_error_In; eauto. }
  induction n as [|n IH]; intros k row se Hk.
  - simpl. replace k with (length line) by lia.
    rewrite skipn_all. simpl. rewrite app_nil_r. reflexivity.
  - destruct (nth_error_lt_Some line k ltac:(lia)) as [v Hv].
    rewrite (skipn_nth_error _ _ _ Hv).
    assert (0 <= v).
    { rewrite Forall_forall in Hpos. apply Hpos. eapply nth_error_In; eauto. }
    cbn [seq foldM]. unfold AStar.init_cell at 1. destruct se as [s e].
    unfold getitem. rewrite Hline. cbn [bind]. rewrite Hv. cbn [bind].
    rewrite from_value_decode by assumption. cbn [bind].
    rewrite IH by lia. cbn [row_from]. rewrite <- app_assoc. reflexivity.
Qed.

Lemma init_rows (yLen : nat) :
  Forall (fun line => length line = yLen) arr2d ->
  forall n k rows se, (k + n = length arr2d)%nat ->
    foldM (AStar.init_row arr2d yLen) (seq k n) (rows, se) =
    Ret (rows ++ rows_from k (skipn k arr2d),
         scan_nodes (concat (rows_from k (skipn k arr2d))) se).
Proof.
  intros Hrect.
  induction n as [|n IH]; intros k rows se Hk.
  - simpl. replace k with (length arr2d) by lia.
    rewrite skipn_all. simpl. rewrite app_nil_r. reflexivity.
  - destruct (nth_error_lt_Some arr2d k ltac:(lia)) as [line Hline].
    rewrite (skipn_nth_error _ _ _ Hline).
    assert (Hlen : length line = yLen).
    { rewrite Forall_forall in Hrect. apply Hrect. eapply nth_error_In; eauto. }
    cbn [seq foldM]. unfold AStar.init_row at 1.
    rewrite (init_cells k line Hline yLen 0 [] se) by lia.
    cbn [bind skipn app]. rewrite IH by lia.
    cbn [rows_from concat]. unfold scan_nodes. rewrite fold_left_app.
    rewrite <- app_assoc. reflexivity.
Qed.

(** The constructor on a rectangular array with at least one row. *)
Lemma init_eq (row0 : list Z) (rest : list (list Z)) :
  arr2d = row0 :: rest -> rectangular arr2d ->
  AStar.init arr2d =
  match scan_nodes (concat (rows_from 0 arr2d)) (None, None) with
  | (None, _) => Raise (InvalidLayoutInitializationException "No start found.")
  | (Some _, None) => Raise (InvalidLayoutInitializationException "No end found.")
  | (Some ns, Some ne) => Ret (mkAStar (rows_from 0 arr2d) ns ne [] [])
  end.
Proof.
  intros Harr Hrect. unfold AStar.init, AStar.init_shared.
  assert (Hget : getitem arr2d 0 = Ret row0) by (rewrite Harr; reflexivity).
  rewrite Hget. cbn [bind]. cbv zeta.
  assert (Hrect' : Forall (fun line => length line = length row0) arr2d).
  { unfold rectangular in Hrect. replace (hd [] arr2d) with row0 in Hrect
      by (rewrite Harr; reflexivity). exact Hrect. }
  rewrite (init_rows (length row0) Hrect' (length arr2d) 0%nat [] (None, None))
    by lia.
  cbn [bind skipn app].
  destruct (scan_nodes (concat (rows_from 0 arr2d)) (None, None)) as [[s|] [e|]];
    reflexivity.
Qed.

End Constructor.

Lemma nth_error_row_from (ix : nat) (line : list Z) :
  forall k j,
    nth_error (row_from ix k line) j =
    option_map (fun v => mkNode (Z.of_nat ix) (Z.of_nat (k + j)) (decode v) None)
               (nth_error line j).
Proof.
  induction line as [|v line IH]; intros k [|j]; simpl; try reflexivity.
  - rewrite Nat.add_0_r. reflexivity.
  - rewrite IH. replace (S k + j)%nat with (k + S j)%nat by lia. reflexivity.
Qed.

Lemma nth_error_rows_from (arr2d : list (list Z)) :
  forall k i,
    nth_error (rows_from k arr2d) i =
    option_map (row_from (k + i) 0) (nth_error arr2d i).
Proof.
  induction arr2d as [|line arr IH]; intros k [|i]; simpl; try reflexivity.
  - rewrite Nat.add_0_r. reflexivity.
  - rewrite IH. replace (S k + i)%nat with (k + S i)%nat by lia. reflexivity.
Qed.

Lemma node_at_rows_from (arr2d : list (list Z)) (p : Z * Z) (n : Node) :
  node_at (rows_from 0 arr2d) p = Some n ->
  exists line v,
    nth_error arr2d (Z.to_nat (fst p)) = Some line /\
    nth_error line (Z.to_nat (snd p)) = Some v /\
    n = mkNode (fst p) (snd p) (decode v) None.
Proof.
  unfold node_at. destruct p as [i j]. cbn [fst snd].
  destruct ((0 <=? i) && (0 <=? j)) eqn:Hb; [|discriminate].
  apply andb_true_iff in Hb. destruct Hb as [Hi Hj].
  apply Z.leb_le in Hi. apply Z.leb_le in Hj.
  rewrite nth_error_rows_from.
  destruct (nth_error arr2d (Z.to_nat i)) as [line|] eqn:Hline; [|discriminate].
  cbn [option_map]. rewrite nth_error_row_from.
  destruct (nth_error line (Z.to_nat j)) as [v|] eqn:Hv; [|discriminate].
  cbn [option_map]. intros H. inv H. exists line, v.
  split; [reflexivity|]. split; [assumption|].
  cbn [Nat.add]. rewrite !Z2Nat.id by assumption. reflexivity.
Qed.

Lemma rows_from_node_at (arr2d : list (list Z)) (i j : nat) (line : list Z) (v : Z) :
  nth_error arr2d i = Some line -> nth_error line j = Some v ->
  node_at (rows_from 0 arr2d) (Z.of_nat i, Z.of_nat j) =
  Some (mkNode (Z.of_nat i) (Z.of_nat j) (decode v) None).
Proof.
  intros Hline Hv. unfold node_at. cbn [fst snd].
  replace ((0 <=? Z.of_nat i) && (0 <=? Z.of_nat j)) with true
    by (symmetry; apply andb_true_iff; split; apply Z.leb_le; lia).
  rewrite !Nat2Z.id, nth_error_rows_from, Hline. cbn [option_map].
  rewrite nth_error_row_from, Hv. reflexivity.
Qed.

Lemma in_rows_from (arr2d : list (list Z)) (n : Node) :
  In n (concat (rows_from 0 arr2d)) <->
  exists i j line v,
    nth_error arr2d i = Some line /\ nth_error line j = Some v /\
    n = mkNode (Z.of_nat i) (Z.of_nat j) (decode v) None.
Proof.
  rewrite in_concat. split.
  - intros (row & Hrow & Hn).
    apply In_nth_error in Hrow. destruct Hrow as [i Hi].
    apply In_nth_error in Hn. destruct Hn as [j Hj].
    rewrite nth_error_rows_from in Hi.
    destruct (nth_error arr2d i) as [line|] eqn:Hline; [|discriminate].
    cbn [option_map] in Hi. inv Hi.
    rewrite nth_error_row_from in Hj.
    destruct (nth_error line j) as [v|] eqn:Hv; [|discriminate].
    cbn [option_map] in Hj. inv Hj. exists i, j, line, v. auto.
  - intros (i & j & line & v & Hline & Hv & ->).
    exists (row_from i 0 line). split.
    + eapply nth_error_In with (n := i).
      rewrite nth_error_rows_from, Hline. reflexivity.
    + eapply nth_error_In with (n := j).
      rewrite nth_error_row_from, Hv. reflexivity.
Qed.

Lemma scan_nodes_start_None (nodes : list Node) :
  forall se, fst (scan_nodes nodes se) = None <->
             fst se = None /\ Forall (fun n => Node.is_start n = false) nodes.
Proof.
  induction nodes as [|n nodes IH]; intros se; simpl.
  - split; [auto | tauto].
  - unfold scan_nodes in IH. rewrite IH. unfold scan_node. cbn [fst].
    rewrite Forall_cons_iff.
    destruct (Node.is_start n); split; intros H; try tauto;
      destruct H as [? ?]; try discriminate; intuition discriminate.
Qed.

Lemma scan_nodes_end_None (nodes : list Node) :
  forall se, snd (scan_nodes nodes se) = None <->
             snd se = None /\ Forall (fun n => Node.is_end n = false) nodes.
Proof.
  induction nodes as [|n nodes IH]; intros se; simpl.
  - split; [auto | tauto].
  - unfold scan_nodes in IH. rewrite IH. unfold scan_node. cbn [snd].
    rewrite Forall_cons_iff.
    destruct (Node.is_end n); split; intros H; try tauto;
      destruct H as [? ?]; try discriminate; intuition discriminate.
Qed.

Lemma scan_nodes_start_Some (nodes : list Node) :
  forall se n, fst (scan_nodes nodes se) = Some n ->
               fst se = Some n \/ (In n nodes /\ Node.is_start n = true).
Proof.
  induction nodes as [|m nodes IH]; intros se n; simpl; [auto|].
  intros H. apply IH in H. unfold scan_node in H. cbn [fst] in H.
  destruct H as [H | [H1 H2]]; [|tauto].
  destruct (Node.is_start m) eqn:E; [|auto].
  inv H. auto.
Qed.

Lemma scan_nodes_end_Some (nodes : list Node) :
  forall se n, snd (scan_nodes nodes se) = Some n ->
               snd se = Some n \/ (In n nodes /\ Node.is_end n = true).
Proof.
  induction nodes as [|m nodes IH]; intros se n; simpl; [auto|].
  intros H. apply IH in H. unfold scan_node in H. cbn [snd] in H.
  destruct H as [H | [H1 H2]]; [|tauto].
  destruct (Node.is_end m) eqn:E; [|auto].
  inv H. auto.
Qed.

(** ** Well-formed instances *)

Record grid_ok (a : AStar) : Prop := {
  grid_rect : rectangular (layout a);
  grid_cells : forall p n,
      node_at (layout a) p = Some n ->
      n = mkNode (fst p) (snd p) (Node.node_type n) None;
  grid_start : node_at (layout a) (coords (node_start a)) = Some (node_start a);
  grid_start_kind : Node.node_type (node_start a) = START;
  grid_end : node_at (layout a) (coords (node_end a)) =
             Some (Node.set_edge_to_parent (node_end a) None);
  grid_end_kind : Node.node_type (node_end a) = END
}.

Lemma length_row_from (ix : nat) (line : list Z) :
  forall k, length (row_from ix k line) = length line.
Proof. induction line; intros k; simpl; auto. Qed.

Lemma rows_from_rect (arr2d : list (list Z)) (len : nat) :
  Forall (fun line => length line = len) arr2d ->
  forall k, Forall (fun row => length row = len) (rows_from k arr2d).
Proof.
  induction 1; intros k; simpl; constructor; auto.
  rewrite length_row_from. assumption.
Qed.

Lemma rectangular_rows_from (arr2d : list (list Z)) :
  rectangular arr2d -> rectangular (rows_from 0 arr2d).
Proof.
  unfold rectangular. intros H.
  replace (length (hd [] (rows_from 0 arr2d))) with (length (hd [] arr2d)).
  - apply rows_from_rect. assumption.
  - destruct arr2d; simpl; [reflexivity|]. rewrite length_row_from. reflexivity.
Qed.

Lemma init_grid_ok (arr2d : list (list Z)) (a : AStar) :
  rectangular arr2d -> non_negative arr2d ->
  AStar.init arr2d = Ret a ->
  grid_ok a /\ layout a = rows_from 0 arr2d /\
  Node.edge_to_parent (node_end a) = None /\
  open_list a = [] /\ closed_list a = [].
Proof.
  intros Hrect Hnn Hinit.
  assert (Hne : exists row0 rest, arr2d = row0 :: rest).
  { destruct arr2d; [discriminate | eauto]. }
  destruct Hne as (row0 & rest & Harr).
  rewrite (init_eq arr2d Hnn row0 rest Harr Hrect) in Hinit. clear Harr.
  destruct (scan_nodes _ _) as [[ns|] [ne|]] eqn:Hscan; try discriminate.
  inv Hinit. cbn [layout node_start node_end open_list closed_list].
  pose proof (scan_nodes_start_Some _ _ ns (f_equal fst Hscan)) as [Hs | [Hs1 Hs2]];
    [discriminate|].
  pose proof (scan_nodes_end_Some _ _ ne (f_equal snd Hscan)) as [He | [He1 He2]];
    [discriminate|].
  apply in_rows_from in Hs1. destruct Hs1 as (i & j & line & v & Hl & Hv & ->).
  apply in_rows_from in He1. destruct He1 as (i' & j' & line' & v' & Hl' & Hv' & ->).
  split; [|auto].
  constructor; cbn [layout node_start node_end].
  - apply rectangular_rows_from. assumption.
  - intros p n Hn. apply node_at_rows_from in Hn.
    destruct Hn as (l0 & v0 & _ & _ & ->). reflexivity.
  - apply rows_from_node_at with (line := line); assumption.
  - apply NodeType_eqb_eq. exact Hs2.
  - unfold coords. cbn. apply rows_from_node_at with (line := line'); assumption.
  - apply NodeType_eqb_eq. exact He2.
Qed.

(* ================================================================== *)
(** * List operations of the search *)
(* ================================================================== *)

Lemma remove_split (l : list Node) (n : Node) :
  NoDup (map coords l) -> In n l ->
  exists l1 l2, l = l1 ++ n :: l2 /\ remove l n = Ret (l1 ++ l2).
Proof.
  induction l as [|m l IH]; intros Hnd Hin; [contradiction|].
  simpl in Hnd. inv Hnd. simpl.
  destruct (Node.eqb m n) eqn:E.
  - apply Node_eqb_coords in E. destruct Hin as [-> | Hin].
    + exists [], l. auto.
    + exfalso. apply H1. rewrite E. apply in_map. assumption.
  - destruct Hin as [-> | Hin].
    + exfalso. assert (Node.eqb n n = true) by (apply Node_eqb_coords; reflexivity).
      congruence.
    + destruct (IH H2 Hin) as (l1 & l2 & -> & Hr).
      exists (m :: l1), l2. rewrite Hr. auto.
Qed.

Lemma min_from_In (key : Node -> outcome float) (l : list Node) :
  (forall n, In n l -> exists k, key n = Ret k) ->
  forall best kbest, exists n,
    AStar.min_from key best kbest l = Ret n /\ (n = best \/ In n l).
Proof.
  induction l as [|m l IH]; intros Hkey best kbest; simpl.
  - eauto.
  - destruct (Hkey m (or_introl eq_refl)) as [k Hk]. rewrite Hk. cbn [bind].
    assert (Hkey' : forall n, In n l -> exists k, key n = Ret k)
      by (intros; apply Hkey; right; assumption).
    destruct (k <? kbest)%float.
    + destruct (IH Hkey' m k) as (n & Hn & [-> | Hin]); eauto.
    + destruct (IH Hkey' best kbest) as (n & Hn & [-> | Hin]); eauto.
Qed.

Lemma min_key_In (key : Node -> outcome float) (l : list Node) :
  (forall n, In n l -> exists k, key n = Ret k) -> l <> [] ->
  exists n, AStar.min_key key l = Ret n /\ In n l.
Proof.
  intros Hkey Hne. destruct l as [|m l]; [congruence|]. simpl.
  destruct (Hkey m (or_introl eq_refl)) as [k Hk]. rewrite Hk. cbn [bind].
  destruct (min_from_In key l (fun n H => Hkey n (or_intror H)) m k)
    as (n & Hn & [-> | Hin]); eauto.
Qed.

Lemma index_found (l : list Node) (n : Node) :
  contains l n = true ->
  exists i m, index l n = Ret i /\ nth_error l i = Some m /\ coords m = coords n.
Proof.
  induction l as [|m l IH]; simpl; [discriminate|].
  destruct (Node.eqb m n) eqn:E; simpl.
  - intros _. exists O, m. apply Node_eqb_coords in E. auto.
  - intros H. destruct (IH H) as (i & m' & Hi & Hn & Hc).
    exists (S i), m'. rewrite Hi. auto.
Qed.

Lemma setitem_split {A : Type} (l : list A) (i : nat) (m v : A) :
  nth_error l i = Some m ->
  exists l1 l2, l = l1 ++ m :: l2 /\ setitem l i v = Ret (l1 ++ v :: l2).
Proof.
  revert i. induction l as [|a l IH]; intros [|i] H; simpl in *; try discriminate.
  - inv H. exists [], l. auto.
  - destruct (IH i H) as (l1 & l2 & -> & Hs).
    exists (a :: l1), l2. rewrite Hs. auto.
Qed.

(* ================================================================== *)
(** * Neighbours *)
(* ================================================================== *)

(** The neighbours of a node, read off the layout. *)
Definition neighbours (lay : list (list Node)) (node : Node) : list (Node * bool) :=
  flat_map (fun c : Z * Z * bool =>
              match node_at lay (fst (fst c), snd (fst c)) with
              | Some n => [(n, snd c)]
              | None => []
              end)
           (AStar.aligned_coordinates node).

Lemma get_node_or_none_eq (a : AStar) (i j : Z) :
  rectangular (layout a) ->
  AStar.get_node_or_none a i j = Ret (node_at (layout a) (i, j)).
Proof.
  intros Hrect. unfold AStar.get_node_or_none, AStar.is_in_bounds, node_at.
  unfold AStar.get_len_x, AStar.get_len_y. cbn [fst snd].
  destruct (i <? 0) eqn:Hi0; cbn [orb bind].
  { replace (0 <=? i) with false by (symmetry; apply Z.leb_gt; lia). reflexivity. }
  destruct (i >? Z.of_nat (length (layout a)) - 1) eqn:Hix; cbn [orb bind].
  { replace (nth_error (layout a) (Z.to_nat i)) with (@None (list Node)).
    - destruct ((0 <=? i) && (0 <=? j)); reflexivity.
    - symmetry. apply nth_error_None. lia. }
  destruct (j <? 0) eqn:Hj0; cbn [orb bind].
  { replace (0 <=? j) with false by (symmetry; apply Z.leb_gt; lia).
    rewrite andb_false_r. reflexivity. }
  replace ((0 <=? i) && (0 <=? j)) with true
    by (symmetry; apply andb_true_iff; split; apply Z.leb_le; lia).
  destruct (nth_error_lt_Some (layout a) (Z.to_nat i) ltac:(lia)) as [row Hrow].
  assert (Hlen : length row = length (hd [] (layout a))).
  { unfold rectangular in Hrect. rewrite Forall_forall in Hrect.
    apply Hrect. eapply nth_error_In; eauto. }
  destruct (layout a) as [|row0 rest] eqn:Hlay.
  { destruct (Z.to_nat i); discriminate. }
  unfold getitem at 1. cbn [nth_error bind hd] in *.
  rewrite <- Hlen.
  destruct (j >? Z.of_nat (length row) - 1) eqn:Hjy; cbn [negb].
  - rewrite Hrow.
    replace (nth_error row (Z.to_nat j)) with (@None Node); [reflexivity|].
    symmetry. apply nth_error_None. lia.
  - unfold getitem. rewrite Hrow. cbn [bind].
    destruct (nth_error_lt_Some row (Z.to_nat j) ltac:(lia)) as [n Hn].
    rewrite Hn. reflexivity.
Qed.

Lemma get_neighbours_from (a : AStar) (l : list (Z * Z * bool)) :
  rectangular (layout a) ->
  forall res,
    foldM (fun result '(i, j, d) =>
             nb <- AStar.get_node_or_none a i j ;;
             match nb with
             | Some n => Ret (result ++ [(n, d)])
             | None => Ret result
             end) l res =
    Ret (res ++ flat_map (fun c : Z * Z * bool =>
                            match node_at (layout a) (fst (fst c), snd (fst c)) with
                            | Some n => [(n, snd c)]
                            | None => []
                            end) l).
Proof.
  intros Hrect. induction l as [|[[i j] d] l IH]; intros res.
  - simpl. rewrite app_nil_r. reflexivity.
  - cbn [foldM flat_map fst snd]. rewrite get_node_or_none_eq by assumption.
    cbn [bind]. destruct (node_at (layout a) (i, j)) as [n|]; cbn [bind].
    + rewrite IH. rewrite <- app_assoc. reflexivity.
    + rewrite IH. reflexivity.
Qed.

Lemma get_neighbours_eq (a : AStar) (node : Node) :
  rectangular (layout a) ->
  AStar.get_neighbours a node = Ret (neighbours (layout a) node).
Proof.
  intros Hrect. unfold AStar.get_neighbours.
  rewrite get_neighbours_from by assumption. reflexivity.
Qed.

Lemma neighbours_sound (lay : list (list Node)) (node m : Node) (d : bool) :
  In (m, d) (neighbours lay node) ->
  exists p, node_at lay p = Some m /\ adjacent8 (coords node) p.
Proof.
  unfold neighbours. rewrite in_flat_map.
  intros ([[i j] d'] & Hc & Hm). cbn [fst snd] in Hm.
  destruct (node_at lay (i, j)) as [n|] eqn:Hn; [|contradiction].
  destruct Hm as [Hm | []]. inv Hm.
  exists (i, j). split; [assumption|].
  unfold adjacent8, chebyshev, coords. cbn [fst snd].
  unfold AStar.aligned_coordinates in Hc. simpl in Hc.
  repeat (destruct Hc as [Hc | Hc]; [inv Hc; lia|]). contradiction.
Qed.

Lemma neighbours_complete (lay : list (list Node)) (node m : Node) (q : Z * Z) :
  node_at lay q = Some m -> adjacent8 (coords node) q ->
  exists d, In (m, d) (neighbours lay node).
Proof.
  intros Hm Hadj. destruct q as [i j].
  unfold adjacent8, chebyshev, coords in Hadj. cbn [fst snd] in Hadj.
  assert (Hc : exists d, In (i, j, d) (AStar.aligned_coordinates node)).
  { unfold AStar.aligned_coordinates.
    assert (Hi : i = Node.x node - 1 \/ i = Node.x node \/ i = Node.x node + 1) by lia.
    assert (Hj : j = Node.y node - 1 \/ j = Node.y node \/ j = Node.y node + 1) by lia.
    destruct Hi as [-> | [-> | ->]], Hj as [-> | [-> | ->]];
      try (exists true; simpl; tauto); try (exists false; simpl; tauto).
    exfalso. lia. }
  destruct Hc as [d Hc]. exists d. unfold neighbours. apply in_flat_map.
  exists (i, j, d). split; [assumption|]. cbn [fst snd]. rewrite Hm. left. reflexivity.
Qed.

(* ================================================================== *)
(** * Invariants of the search *)
(* ================================================================== *)

(** A node whose chain of parents leads back to the start node over
    cells of the grid that are no obstacles, every step to an 8-adjacent
    cell. *)
Inductive chain_ok (lay : list (list Node)) (s : Node) : Node -> Prop :=
| chain_start : chain_ok lay s s
| chain_edge (n : Node) (e : Edge) :
    Node.edge_to_parent n = Some e ->
    node_at lay (coords n) = Some (Node.set_edge_to_parent n None) ->
    Node.is_obstacle n = false ->
    adjacent8 (coords (Edge.target e)) (coords n) ->
    chain_ok lay s (Edge.target e) ->
    chain_ok lay s n.

Record search_inv (a : AStar) : Prop := {
  inv_grid : grid_ok a;
  inv_nodup : NoDup (map coords (open_list a ++ closed_list a));
  inv_chain : Forall (chain_ok (layout a) (node_start a))
                     (open_list a ++ closed_list a);
  inv_open : (open_list a = [node_start a] /\ closed_list a = []) \/
             Forall (fun n => Node.has_edge_to_parent n = true) (open_list a);
  inv_start : In (coords (node_start a)) (map coords (open_list a ++ closed_list a));
  inv_closed : Forall (fun n => Node.is_end n = false) (closed_list a);
  inv_expanded : forall c q,
      In c (closed_list a) -> free_cell (layout a) q = true ->
      adjacent8 (coords c) q ->
      In q (map coords (open_list a ++ closed_list a))
}.

(** The invariant of the loop over the neighbours. *)
Record visit_inv (a : AStar) : Prop := {
  vi_grid : grid_ok a;
  vi_nodup : NoDup (map coords (open_list a ++ closed_list a));
  vi_chain : Forall (chain_ok (layout a) (node_start a))
                    (open_list a ++ closed_list a);
  vi_edges : Forall (fun n => Node.has_edge_to_parent n = true) (open_list a)
}.

(** What the loop leaves as it is, and what it can only extend. *)
Definition same_frame (a a' : AStar) : Prop :=
  layout a' = layout a /\ node_start a' = node_start a /\
  node_end a' = node_end a /\ closed_list a' = closed_list a /\
  incl (map coords (open_list a)) (map coords (open_list a')).

Lemma same_frame_refl (a : AStar) : same_frame a a.
Proof. unfold same_frame. repeat split; auto. apply incl_refl. Qed.

Lemma same_frame_trans (a b c : AStar) :
  same_frame a b -> same_frame b c -> same_frame a c.
Proof.
  unfold same_frame. intros (H1 & H2 & H3 & H4 & H5) (K1 & K2 & K3 & K4 & K5).
  repeat split; try congruence. eapply incl_tran; eauto.
Qed.

Lemma same_frame_covered (a a' : AStar) (q : Z * Z) :
  same_frame a a' ->
  In q (map coords (open_list a ++ closed_list a)) ->
  In q (map coords (open_list a' ++ closed_list a')).
Proof.
  intros (_ & _ & _ & Hc & Hincl). rewrite !map_app, !in_app_iff, Hc.
  intros [H | H]; auto.
Qed.

Lemma grid_ok_frame (a a' : AStar) :
  layout a' = layout a -> node_start a' = node_start a ->
  node_end a' = node_end a -> grid_ok a -> grid_ok a'.
Proof.
  intros Hl Hs He [R C S SK E EK].
  constructor; rewrite ?Hl, ?Hs, ?He; assumption.
Qed.

Lemma start_no_edge (a : AStar) :
  grid_ok a -> Node.edge_to_parent (node_start a) = None.
Proof.
  intros G. pose proof (grid_cells a G _ _ (grid_start a G)) as H.
  rewrite H. reflexivity.
Qed.

Lemma chain_node_at (a : AStar) (n : Node) :
  grid_ok a -> chain_ok (layout a) (node_start a) n ->
  node_at (layout a) (coords n) = Some (Node.set_edge_to_parent n None).
Proof.
  intros G H. destruct H as [|n e He Hat _ _ _]; [|assumption].
  rewrite (grid_start a G). f_equal.
  pose proof (start_no_edge a G) as Hs.
  destruct (node_start a) as [sx sy st se]. simpl in *. subst. reflexivity.
Qed.

Lemma chain_not_obstacle (a : AStar) (n : Node) :
  grid_ok a -> chain_ok (layout a) (node_start a) n ->
  Node.is_obstacle n = false.
Proof.
  intros G H. destruct H as [|n e _ _ Ho _ _]; [|assumption].
  unfold Node.is_obstacle. rewrite (grid_start_kind a G). reflexivity.
Qed.

Lemma chain_free (a : AStar) (n : Node) :
  grid_ok a -> chain_ok (layout a) (node_start a) n ->
  free_cell (layout a) (coords n) = true.
Proof.
  intros G H. unfold free_cell. rewrite (chain_node_at a n G H).
  pose proof (chain_not_obstacle a n G H) as Ho.
  unfold Node.is_obstacle in *. destruct n; simpl in *. rewrite Ho. reflexivity.
Qed.

Lemma chain_start_or_edge (lay : list (list Node)) (s n : Node) :
  chain_ok lay s n -> n = s \/ Node.has_edge_to_parent n = true.
Proof.
  intros [|m e He _ _ _ _]; [auto|]. right.
  unfold Node.has_edge_to_parent. rewrite He. reflexivity.
Qed.

Lemma calc_g_ok (a : AStar) (cur : Node) (d : bool) :
  grid_ok a -> chain_ok (layout a) (node_start a) cur ->
  exists gc, AStar.calc_g cur d = Ret gc.
Proof.
  intros G H. unfold AStar.calc_g, Node.has_edge_to_parent, Node.the_edge.
  destruct H as [|n e He _ _ _ _].
  - rewrite (start_no_edge a G), (grid_start_kind a G). simpl. eauto.
  - rewrite He. simpl. eauto.
Qed.

Lemma key_ok (a : AStar) (n : Node) :
  grid_ok a -> chain_ok (layout a) (node_start a) n ->
  exists k, AStar.get_f_or_zero_if_start n = Ret k.
Proof.
  intros G H. unfold AStar.get_f_or_zero_if_start, Node.the_edge.
  destruct H as [|n e He _ _ _ _].
  - rewrite (grid_start_kind a G). simpl. eauto.
  - rewrite He. destruct (NodeType.eqb _ _); simpl; eauto.
Qed.

Lemma visit_ok (a : AStar) (cur m : Node) (d : bool) (p : Z * Z) :
  visit_inv a -> In cur (closed_list a) ->
  node_at (layout a) p = Some m -> adjacent8 (coords cur) p ->
  exists a',
    AStar.visit cur a (m, d) = Ret a' /\ visit_inv a' /\ same_frame a a' /\
    (free_cell (layout a) p = true ->
     In p (map coords (open_list a' ++ closed_list a'))).
Proof.
  intros V Hcur Hm Hadj.
  pose proof (vi_grid a V) as G.
  pose proof (grid_cells a G p m Hm) as Hshape.
  destruct m as [mx my mt me]. simpl in Hshape.
  injection Hshape as Hx Hy He. subst mx my me.
  assert (Hccur : chain_ok (layout a) (node_start a) cur).
  { pose proof (vi_chain a V) as HF. rewrite Forall_forall in HF.
    apply HF. apply in_or_app. auto. }
  assert (Hcm : coords (mkNode (fst p) (snd p) mt None) = p)
    by (destruct p; reflexivity).
  unfold AStar.visit.
  destruct (Node.is_obstacle (mkNode (fst p) (snd p) mt None)) eqn:Hobs; cbn [orb].
  { exists a. split; [reflexivity|]. split; [assumption|].
    split; [apply same_frame_refl|].
    intros Hfree. unfold free_cell in Hfree. rewrite Hm, Hobs in Hfree.
    discriminate. }
  destruct (contains (closed_list a) (mkNode (fst p) (snd p) mt None)) eqn:Hcl.
  { exists a. split; [reflexivity|]. split; [assumption|].
    split; [apply same_frame_refl|].
    intros _. apply contains_iff in Hcl. rewrite Hcm in Hcl.
    rewrite map_app. apply in_or_app. auto. }
  destruct (calc_g_ok a cur d G Hccur) as [gc Hgc]. rewrite Hgc. cbn [bind].
  cbv zeta.
  set (m := mkNode (fst p) (snd p) mt None) in *.
  set (nwe := Node.set_edge_to_parent m (Some (mkEdge cur gc (AStar.calc_h a m) d))).
  assert (Hcn : coords nwe = p) by (destruct p; reflexivity).
  assert (Hchain : chain_ok (layout a) (node_start a) nwe).
  { apply chain_edge with (e := mkEdge cur gc (AStar.calc_h a m) d).
    - reflexivity.
    - rewrite Hcn, Hm. reflexivity.
    - exact Hobs.
    - cbn [Edge.target]. rewrite Hcn. exact Hadj.
    - exact Hccur. }
  assert (Hedge : Node.has_edge_to_parent nwe = true) by reflexivity.
  apply contains_false_iff in Hcl. rewrite Hcm in Hcl.
  pose proof (vi_nodup a V) as Hnd.
  pose proof (vi_chain a V) as Hch.
  pose proof (vi_edges a V) as Hed.
  destruct (contains (open_list a) nwe) eqn:Hop; cbn [negb].
  - (* the neighbour is in the open list already *)
    destruct (index_found _ _ Hop) as (i & other & Hi & Hnth & Hco).
    rewrite Hi. cbn [bind]. change (Node.the_edge nwe) with
      (Ret (mkEdge cur gc (AStar.calc_h a m) d)). cbn [bind].
    unfold getitem. rewrite Hnth. cbn [bind].
    assert (Hoe : Node.has_edge_to_parent other = true).
    { rewrite Forall_forall in Hed. apply Hed. eapply nth_error_In; eauto. }
    unfold Node.the_edge. unfold Node.has_edge_to_parent in Hoe.
    destruct (Node.edge_to_parent other) as [e2|]; [|discriminate]. cbn [bind].
    assert (Hin : In p (map coords (open_list a ++ closed_list a))).
    { apply contains_iff in Hop. rewrite Hcn in Hop.
      rewrite map_app. apply in_or_app. auto. }
    destruct (Edge.g _ <? Edge.g e2)%float.
    + destruct (setitem_split _ _ _ nwe Hnth) as (l1 & l2 & Hl & Hset).
      rewrite Hset. cbn [bind].
      assert (Hmap : map coords (l1 ++ nwe :: l2) = map coords (open_list a)).
      { rewrite Hl, !map_app. cbn [map]. rewrite Hco. reflexivity. }
      eexists. split; [reflexivity|]. split; [|split].
      * constructor; cbn [layout node_start node_end open_list closed_list
                            AStar.set_open_list].
        -- eapply grid_ok_frame; [| | | exact G]; reflexivity.
        -- rewrite map_app, Hmap, <- map_app. assumption.
        -- rewrite Hl in Hch. rewrite <- app_assoc in *. cbn [app] in *.
           apply Forall_app. apply Forall_app in Hch. destruct Hch as [H1 H2].
           split; [assumption|]. apply Forall_cons_iff in H2.
           destruct H2 as [_ H2]. constructor; assumption.
        -- rewrite Hl in Hed. apply Forall_app. apply Forall_app in Hed.
           destruct Hed as [H1 H2]. split; [assumption|].
           apply Forall_cons_iff in H2. destruct H2 as [_ H2].
           constructor; assumption.
      * unfold same_frame. cbn [layout node_start node_end open_list closed_list
                                  AStar.set_open_list].
        repeat split. rewrite Hmap. apply incl_refl.
      * intros _. cbn [open_list closed_list AStar.set_open_list].
        rewrite map_app, Hmap, <- map_app. assumption.
    + exists a. split; [reflexivity|]. split; [assumption|].
      split; [apply same_frame_refl|]. auto.
  - (* a new cell of the frontier *)
    apply contains_false_iff in Hop. rewrite Hcn in Hop.
    eexists. split; [reflexivity|]. split; [|split].
    + constructor; cbn [layout node_start node_end open_list closed_list
                          AStar.set_open_list].
      * eapply grid_ok_frame; [| | | exact G]; reflexivity.
      * apply Permutation_NoDup with (l := map coords (nwe :: open_list a ++ closed_list a)).
        -- apply Permutation_map. rewrite <- app_assoc. apply Permutation_middle.
        -- cbn [map]. constructor; [|assumption]. rewrite Hcn, map_app.
           intros H. apply in_app_or in H. tauto.
      * rewrite <- app_assoc. apply Forall_app. apply Forall_app in Hch.
        destruct Hch as [H1 H2]. split; [assumption|]. constructor; assumption.
      * apply Forall_app. split; [assumption|]. constructor; auto.
    + unfold same_frame. cbn [layout node_start node_end open_list closed_list
                                AStar.set_open_list].
      repeat split. rewrite map_app. apply incl_appl. apply incl_refl.
    + intros _. cbn [open_list closed_list AStar.set_open_list].
      rewrite !map_app. cbn [map]. rewrite Hcn.
      apply in_or_app. left. apply in_or_app. right. left. reflexivity.
Qed.

Lemma node_at_coords (a : AStar) (p : Z * Z) (m : Node) :
  grid_ok a -> node_at (layout a) p = Some m -> coords m = p.
Proof.
  intros G H. rewrite (grid_cells a G p m H). destruct p; reflexivity.
Qed.

Lemma visits_ok (cur : Node) (nbs : list (Node * bool)) :
  forall a,
    visit_inv a -> In cur (closed_list a) ->
    (forall m d, In (m, d) nbs ->
                 exists p, node_at (layout a) p = Some m /\ adjacent8 (coords cur) p) ->
    exists a',
      foldM (AStar.visit cur) nbs a = Ret a' /\ visit_inv a' /\ same_frame a a' /\
      (forall m d, In (m, d) nbs ->
                   free_cell (layout a) (coords m) = true ->
                   In (coords m) (map coords (open_list a' ++ closed_list a'))).
Proof.
  induction nbs as [|[m d] nbs IH]; intros a V Hcur Hnbs.
  - exists a. split; [reflexivity|]. split; [assumption|].
    split; [apply same_frame_refl|]. intros ? ? [].
  - destruct (Hnbs m d (or_introl eq_refl)) as (p & Hm & Hadj).
    destruct (visit_ok a cur m d p V Hcur Hm Hadj) as (a1 & Hv & V1 & F1 & C1).
    pose proof F1 as (Hl & Hs & He & Hc & Hi).
    destruct (IH a1 V1) as (a2 & Hf & V2 & F2 & C2).
    { rewrite Hc. assumption. }
    { intros m' d' Hin. rewrite Hl. apply (Hnbs m' d'). right. assumption. }
    exists a2. cbn [foldM]. rewrite Hv. cbn [bind].
    split; [assumption|]. split; [assumption|].
    split; [eapply same_frame_trans; eauto|].
    intros m' d' [Heq | Hin] Hfree.
    + inv Heq. rewrite (node_at_coords a p m' (vi_grid a V) Hm) in *.
      eapply same_frame_covered; eauto.
    + apply (C2 m' d' Hin). rewrite Hl. assumption.
Qed.

(** The three ways a call of [__do_search] can go, from a state that
    satisfies the invariant. *)
Inductive body_result (a : AStar) : bool * AStar + AStar -> Prop :=
| body_exhausted :
    open_list a = [] ->
    body_result a (inl (false, a))
| body_found (cur : Node) (l : list Node) :
    In cur (open_list a) -> Node.is_end cur = true ->
    chain_ok (layout a) (node_start a) cur ->
    body_result a
      (inl (true, mkAStar (layout a) (node_start a) cur l (closed_list a ++ [cur])))
| body_expanded (cur : Node) (a' : AStar) :
    In cur (open_list a) -> Node.is_end cur = false ->
    search_inv a' ->
    layout a' = layout a -> node_start a' = node_start a ->
    node_end a' = node_end a -> closed_list a' = closed_list a ++ [cur] ->
    body_result a (inr a').

Lemma do_search_body_ok (a : AStar) :
  search_inv a -> exists r, AStar.do_search_body a = Ret r /\ body_result a r.
Proof.
  intros I. pose proof (inv_grid a I) as G.
  unfold AStar.do_search_body.
  destruct (open_list a) as [|o ol] eqn:Hopen.
  { simpl. eexists. split; [reflexivity|]. constructor. assumption. }
  cbn [length Nat.leb]. rewrite <- Hopen.
  pose proof (inv_chain a I) as Hch. pose proof (inv_nodup a I) as Hnd.
  assert (Hchf := Hch). rewrite Forall_forall in Hchf.
  destruct (min_key_In AStar.get_f_or_zero_if_start (open_list a)) as (cur & Hmin & Hin).
  { intros n Hn. apply (key_ok a n G). apply Hchf. apply in_or_app. auto. }
  { rewrite Hopen. discriminate. }
  rewrite Hmin. cbn [bind].
  assert (Hndo : NoDup (map coords (open_list a))).
  { rewrite map_app in Hnd. eapply NoDup_app_remove_r. eassumption. }
  destruct (remove_split _ _ Hndo Hin) as (l1 & l2 & Hl & Hrem).
  rewrite Hrem. cbn [bind]. cbv zeta.
  assert (Hccur : chain_ok (layout a) (node_start a) cur).
  { apply Hchf. apply in_or_app. auto. }
  destruct (Node.is_end cur) eqn:Hend.
  { eexists. split; [reflexivity|].
    unfold AStar.set_node_end, AStar.set_closed_list, AStar.set_open_list.
    cbn [layout node_start node_end open_list closed_list].
    apply body_found; assumption. }
  set (a1 := AStar.set_closed_list (AStar.set_open_list a (l1 ++ l2))
                                   (closed_list a ++ [cur])).
  assert (Hperm : Permutation (open_list a ++ closed_list a)
                              (open_list a1 ++ closed_list a1)).
  { subst a1. cbn [open_list closed_list AStar.set_closed_list AStar.set_open_list].
    rewrite Hl. rewrite <- !app_assoc. cbn [app].
    apply Permutation_app_head. rewrite app_assoc.
    apply Permutation_cons_append. }
  assert (V1 : visit_inv a1).
  { constructor.
    - eapply grid_ok_frame; [| | | exact G]; reflexivity.
    - eapply Permutation_NoDup; [apply Permutation_map; exact Hperm | assumption].
    - eapply Permutation_Forall; [exact Hperm | assumption].
    - subst a1. cbn [open_list AStar.set_closed_list AStar.set_open_list].
      destruct (inv_open a I) as [[Ho _] | Ho].
      + rewrite Ho in Hl. destruct l1 as [|? [|? ?]]; try discriminate.
        injection Hl as _ <-. constructor.
      + rewrite Hl in Ho. apply Forall_app in Ho. destruct Ho as [H1 H2].
        apply Forall_cons_iff in H2. apply Forall_app. tauto. }
  rewrite get_neighbours_eq by apply G. cbn [bind].
  change (layout a1) with (layout a).
  destruct (visits_ok cur (neighbours (layout a) cur) a1 V1) as (a2 & Hf & V2 & F2 & C2).
  { subst a1. cbn [closed_list AStar.set_closed_list]. apply in_or_app.
    right. left. reflexivity. }
  { intros m d Hmd. eapply neighbours_sound. exact Hmd. }
  rewrite Hf. cbn [bind]. eexists. split; [reflexivity|].
  destruct F2 as (Hl2 & Hs2 & He2 & Hc2 & Hi2).
  change (layout a1) with (layout a) in *.
  change (node_start a1) with (node_start a) in *.
  change (node_end a1) with (node_end a) in *.
  change (closed_list a1) with (closed_list a ++ [cur]) in *.
  assert (Hcov : forall q, In q (map coords (open_list a ++ closed_list a)) ->
                           In q (map coords (open_list a2 ++ closed_list a2))).
  { intros q Hq.
    apply (same_frame_covered a1 a2); [unfold same_frame; auto|].
    eapply Permutation_in; [apply Permutation_map; exact Hperm | assumption]. }
  apply body_expanded with (cur := cur); try assumption.
  constructor.
  - apply (vi_grid a2 V2).
  - apply (vi_nodup a2 V2).
  - apply (vi_chain a2 V2).
  - right. apply (vi_edges a2 V2).
  - rewrite Hs2. apply Hcov. apply (inv_start a I).
  - rewrite Hc2. apply Forall_app. split; [apply (inv_closed a I)|].
    constructor; auto.
  - intros c q Hc Hfree Hadj. rewrite Hc2 in Hc. rewrite Hl2 in Hfree.
    apply in_app_or in Hc. destruct Hc as [Hc | [<- | []]].
    + apply Hcov. eapply (inv_expanded a I); eauto.
    + unfold free_cell in Hfree.
      destruct (node_at (layout a) q) as [m|] eqn:Hm; [|discriminate].
      destruct (neighbours_complete _ _ _ _ Hm Hadj) as [d Hd].
      rewrite <- (node_at_coords a q m G Hm).
      apply (C2 m d Hd). unfold free_cell.
      rewrite (node_at_coords a q m G Hm), Hm. assumption.
Qed.

(** ** The state [search] starts from *)

Lemma search_reset_inv (a : AStar) : grid_ok a -> search_inv (AStar.search_reset a).
Proof.
  intros G. unfold AStar.search_reset.
  constructor; cbn [layout node_start node_end open_list closed_list app map].
  - eapply grid_ok_frame; [| | | exact G]; reflexivity.
  - constructor; [intros [] | constructor].
  - constructor; [apply chain_start | constructor].
  - left. auto.
  - left. reflexivity.
  - constructor.
  - intros c q [].
Qed.

(** ** The visited cells are fewer than the cells of the grid *)

Definition all_coords (lay : list (list Node)) : list (Z * Z) :=
  list_prod (map Z.of_nat (seq 0 (length lay)))
            (map Z.of_nat (seq 0 (length (hd [] lay)))).

Lemma length_all_coords (a : AStar) : length (all_coords (layout a)) = cells a.
Proof.
  unfold all_coords, cells. rewrite length_prod, !length_map, !length_seq.
  reflexivity.
Qed.

Lemma node_at_all_coords (lay : list (list Node)) (p : Z * Z) (n : Node) :
  rectangular lay -> node_at lay p = Some n -> In p (all_coords lay).
Proof.
  intros Hrect. unfold node_at. destruct p as [i j]. cbn [fst snd].
  destruct ((0 <=? i) && (0 <=? j)) eqn:Hb; [|discriminate].
  apply andb_true_iff in Hb. destruct Hb as [Hi Hj].
  apply Z.leb_le in Hi. apply Z.leb_le in Hj.
  destruct (nth_error lay (Z.to_nat i)) as [row|] eqn:Hrow; [|discriminate].
  intros Hn.
  assert (Hlen : length row = length (hd [] lay)).
  { unfold rectangular in Hrect. rewrite Forall_forall in Hrect.
    apply Hrect. eapply nth_error_In; eauto. }
  assert (Hi' : (Z.to_nat i < length lay)%nat)
    by (apply nth_error_Some; congruence).
  assert (Hj' : (Z.to_nat j < length row)%nat)
    by (apply nth_error_Some; congruence).
  unfold all_coords. apply in_prod; apply in_map_iff.
  - exists (Z.to_nat i). split; [lia|]. apply in_seq. lia.
  - exists (Z.to_nat j). split; [lia|]. apply in_seq. lia.
Qed.

Lemma closed_lt_cells (a : AStar) :
  search_inv a -> (length (closed_list a) < cells a)%nat.
Proof.
  intros I. pose proof (inv_grid a I) as G.
  rewrite <- length_all_coords.
  assert (Hnd : NoDup (coords (node_end a) :: map coords (closed_list a))).
  { constructor.
    - intros Hin. apply in_map_iff in Hin. destruct Hin as (c & Hc & Hin).
      assert (Hcc : chain_ok (layout a) (node_start a) c).
      { pose proof (inv_chain a I) as HF. rewrite Forall_forall in HF.
        apply HF. apply in_or_app. auto. }
      pose proof (chain_node_at a c G Hcc) as Hat.
      rewrite Hc, (grid_end a G) in Hat. injection Hat as _ _ Ht.
      pose proof (inv_closed a I) as HF. rewrite Forall_forall in HF.
      specialize (HF c Hin). unfold Node.is_end in HF.
      rewrite <- Ht, (grid_end_kind a G) in HF. discriminate.
    - pose proof (inv_nodup a I) as H. rewrite map_app in H.
      eapply NoDup_app_remove_l. eassumption. }
  apply NoDup_incl_length with (l' := all_coords (layout a)) in Hnd.
  - cbn [length] in Hnd. rewrite length_map in Hnd. lia.
  - intros p [<- | Hp].
    + eapply node_at_all_coords; [apply G | apply (grid_end a G)].
    + apply in_map_iff in Hp. destruct Hp as (c & <- & Hin).
      eapply node_at_all_coords; [apply G|].
      apply (chain_node_at a c G).
      pose proof (inv_chain a I) as HF. rewrite Forall_forall in HF.
      apply HF. apply in_or_app. auto.
Qed.

(** ** The result of [__do_search] *)

Definition search_post (a : AStar) (b : bool) (a' : AStar) : Prop :=
  layout a' = layout a /\ node_start a' = node_start a /\
  Forall (chain_ok (layout a) (node_start a)) (closed_list a') /\
  if b then
    chain_ok (layout a) (node_start a) (node_end a') /\
    Node.is_end (node_end a') = true /\
    In (node_end a') (closed_list a')
  else
    node_end a' = node_end a /\ search_inv a' /\ open_list a' = [].

Lemma do_search_cases (fuel : nat) :
  forall a, search_inv a ->
    AStar.do_search fuel a = RecursionError \/
    exists b a', AStar.do_search fuel a = Ret (b, a') /\ search_post a b a'.
Proof.
  induction fuel as [|fuel IH]; intros a I; [left; reflexivity|].
  cbn [AStar.do_search].
  destruct (do_search_body_ok a I) as (r & Hr & Hcase). rewrite Hr. cbn [bind].
  destruct Hcase as [Hopen | cur l Hin Hend Hch | cur a1 Hin Hend I1 Hl Hs He Hc].
  - right. exists false, a. split; [reflexivity|].
    unfold search_post. split; [reflexivity|]. split; [reflexivity|].
    split; [|auto].
    pose proof (inv_chain a I) as H. apply Forall_app in H. tauto.
  - right. eexists true, _. split; [reflexivity|].
    unfold search_post. cbn [layout node_start node_end closed_list].
    split; [reflexivity|]. split; [reflexivity|]. split; [|split; [|split]].
    + apply Forall_app. split; [|constructor; auto].
      pose proof (inv_chain a I) as H. apply Forall_app in H. tauto.
    + assumption.
    + assumption.
    + apply in_or_app. right. left. reflexivity.
  - destruct (IH a1 I1) as [Hout | (b & a' & Hd & Hp)]; [left; assumption|].
    right. exists b, a'. split; [assumption|].
    unfold search_post in *. rewrite Hl, Hs, He in Hp. exact Hp.
Qed.

Lemma do_search_enough (fuel : nat) :
  forall a, search_inv a ->
    (cells a <= fuel + length (closed_list a))%nat ->
    AStar.do_search fuel a <> RecursionError.
Proof.
  induction fuel as [|fuel IH]; intros a I Hfuel.
  - pose proof (closed_lt_cells a I). lia.
  - cbn [AStar.do_search].
    destruct (do_search_body_ok a I) as (r & Hr & Hcase). rewrite Hr. cbn [bind].
    destruct Hcase as [Hopen | cur l Hin Hend Hch | cur a1 Hin Hend I1 Hl Hs He Hc];
      try discriminate.
    apply IH; [assumption|].
    unfold cells in *. rewrite Hl, Hc, length_app. cbn [length]. lia.
Qed.

Lemma do_search_total (fuel : nat) (a : AStar) :
  search_inv a -> (cells a <= fuel + length (closed_list a))%nat ->
  exists b a', AStar.do_search fuel a = Ret (b, a') /\ search_post a b a'.
Proof.
  intros I Hfuel.
  destruct (do_search_cases fuel a I) as [Hout | H]; [|assumption].
  exfalso. eapply do_search_enough; eauto.
Qed.

Lemma do_search_partial (fuel : nat) (a : AStar) (b : bool) (a' : AStar) :
  search_inv a -> AStar.do_search fuel a = Ret (b, a') -> search_post a b a'.
Proof.
  intros I H. destruct (do_search_cases fuel a I) as [Hout | (b' & a'' & Hd & Hp)].
  - congruence.
  - rewrite H in Hd. inv Hd. assumption.
Qed.

Lemma search_post_grid_ok (a : AStar) (b : bool) (a' : AStar) :
  grid_ok a -> search_post a b a' -> grid_ok a'.
Proof.
  intros G (Hl & Hs & _ & Hb). destruct b.
  - destruct Hb as (Hch & Hend & _).
    destruct G as [R C S SK E EK].
    constructor; rewrite ?Hl, ?Hs; try assumption.
    + apply (chain_node_at a (node_end a')); [constructor; assumption | assumption].
    + apply NodeType_eqb_eq. exact Hend.
  - destruct Hb as (_ & I & _). apply (inv_grid a' I).
Qed.

(** ** Instances *)

(** The states of an instance built from [arr2d]: the constructed one,
    whatever the lists of the class hold at that time, the ones left by
    calls of [search], and the ones in which the lists of the class hold
    something else, left there by another instance or by a search that
    ended in [RecursionError]. *)
Inductive instance (arr2d : list (list Z)) : AStar -> Prop :=
| instance_new (a : AStar) :
    AStar.init arr2d = Ret a -> instance arr2d a
| instance_search (fuel : nat) (a : AStar) (b : bool) (a' : AStar) :
    instance arr2d a -> AStar.search fuel a = Ret (b, a') -> instance arr2d a'
| instance_shared (shared_open shared_closed : list Node) (a : AStar) :
    AStar.init_shared shared_open shared_closed arr2d = Ret a -> instance arr2d a
| instance_lists (a : AStar) (l l' : list Node) :
    instance arr2d a ->
    instance arr2d (mkAStar (layout a) (node_start a) (node_end a) l l').

(** ** Every accepted array yields a well-formed instance *)

Lemma from_value_Ret (v : Z) (t : NodeType) :
  NodeType.from_value v = Ret t -> 0 <= v /\ t = decode v.
Proof.
  destruct v as [|p|p]; intros H.
  - split; [lia|]. rewrite from_value_decode in H by lia. congruence.
  - split; [lia|]. rewrite from_value_decode in H by lia. congruence.
  - discriminate.
Qed.

Lemma init_cells_inv (arr2d : list (list Z)) (ix : nat) (line : list Z) :
  nth_error arr2d ix = Some line ->
  forall n k row se r,
    foldM (AStar.init_cell arr2d ix) (seq k n) (row, se) = Ret r ->
    length (firstn n (skipn k line)) = n /\
    Forall (fun v => 0 <= v) (firstn n (skipn k line)) /\
    r = (row ++ row_from ix k (firstn n (skipn k line)),
         scan_nodes (row_from ix k (firstn n (skipn k line))) se).
Proof.
  intros Hline. induction n as [|n IH]; intros k row se r H.
  - simpl in *. inv H. rewrite app_nil_r. auto.
  - cbn [seq foldM] in H. unfold AStar.init_cell at 1 in H. destruct se as [s e].
    unfold getitem in H. rewrite Hline in H. cbn [bind] in H.
    destruct (nth_error line k) as [v|] eqn:Hv; [|discriminate]. cbn [bind] in H.
    destruct (NodeType.from_value v) as [t| |] eqn:Ht; try discriminate.
    cbn [bind] in H. apply from_value_Ret in Ht. destruct Ht as [Hpos ->].
    apply IH in H. destruct H as (Hlen & Hnn & ->).
    rewrite (skipn_nth_error _ _ _ Hv). cbn [firstn length row_from].
    split; [congruence|]. split; [constructor; assumption|].
    rewrite <- app_assoc. reflexivity.
Qed.

Lemma init_rows_inv (arr2d : list (list Z)) (yLen : nat) :
  forall n k rows se r,
    (k + n <= length arr2d)%nat ->
    foldM (AStar.init_row arr2d yLen) (seq k n) (rows, se) = Ret r ->
    Forall (fun l => length l = yLen)
           (map (firstn yLen) (firstn n (skipn k arr2d))) /\
    non_negative (map (firstn yLen) (firstn n (skipn k arr2d))) /\
    r = (rows ++ rows_from k (map (firstn yLen) (firstn n (skipn k arr2d))),
         scan_nodes
           (concat (rows_from k (map (firstn yLen) (firstn n (skipn k arr2d)))))
           se).
Proof.
  unfold non_negative.
  induction n as [|n IH]; intros k rows se r Hk H.
  - simpl in *. inv H. rewrite app_nil_r. auto.
  - destruct (nth_error_lt_Some arr2d k ltac:(lia)) as [line Hline].
    cbn [seq foldM] in H. unfold AStar.init_row at 1 in H.
    destruct (foldM (AStar.init_cell arr2d k) (seq 0 yLen) ([], se))
      as [[row se']| |] eqn:Hrow; try discriminate.
    cbn [bind] in H.
    apply (init_cells_inv arr2d k line Hline) in Hrow.
    cbn [skipn app] in Hrow. destruct Hrow as (Hlen & Hnn & Hr). inv Hr.
    apply IH in H; [|lia]. destruct H as (Hrect & Hnn' & ->).
    rewrite (skipn_nth_error _ _ _ Hline). cbn [firstn map rows_from concat].
    split; [constructor; assumption|]. split; [constructor; assumption|].
    unfold scan_nodes. rewrite fold_left_app, <- app_assoc. reflexivity.
Qed.

(** The columns the constructor reads: those of the first row. *)
Definition read_part (arr2d : list (list Z)) : list (list Z) :=
  map (firstn (length (hd [] arr2d))) arr2d.

Lemma init_accepted (arr2d : list (list Z)) (a : AStar) :
  AStar.init arr2d = Ret a ->
  rectangular (read_part arr2d) /\ non_negative (read_part arr2d) /\
  AStar.init (read_part arr2d) = Ret a.
Proof.
  intros H. destruct arr2d as [|row0 rest] eqn:Harr; [discriminate|].
  rewrite <- Harr in *.
  assert (Hhd : hd [] arr2d = row0) by (rewrite Harr; reflexivity).
  unfold AStar.init, AStar.init_shared in H.
  replace (getitem arr2d 0) with (Ret row0) in H by (rewrite Harr; reflexivity).
  cbn [bind] in H. cbv zeta in H.
  destruct (foldM _ _ _) as [[rows [s e]]| |] eqn:Hfold; try discriminate.
  cbn [bind] in H.
  apply init_rows_inv in Hfold; [|lia].
  cbn [skipn] in Hfold. rewrite firstn_all in Hfold.
  destruct Hfold as (Hrect & Hnn & Hr). cbn [app] in Hr.
  assert (Hrp : read_part arr2d = map (firstn (length row0)) arr2d).
  { unfold read_part. rewrite Hhd. reflexivity. }
  rewrite <- Hrp in *.
  assert (Hne : read_part arr2d =
                firstn (length row0) row0 :: map (firstn (length row0)) rest).
  { rewrite Hrp, Harr. reflexivity. }
  assert (Hrect' : rectangular (read_part arr2d)).
  { unfold rectangular.
    replace (hd [] (read_part arr2d)) with (firstn (length row0) row0)
      by (rewrite Hne; reflexivity).
    rewrite firstn_all. exact Hrect. }
  split; [assumption|]. split; [exact Hnn|].
  rewrite (init_eq (read_part arr2d) Hnn _ _ Hne Hrect').
  injection Hr as -> Hscan. rewrite <- Hscan.
  destruct s; [|discriminate]. destruct e; [|discriminate]. assumption.
Qed.

Lemma init_ok (arr2d : list (list Z)) (a : AStar) :
  AStar.init arr2d = Ret a ->
  grid_ok a /\ layout a = rows_from 0 (read_part arr2d) /\
  Node.edge_to_parent (node_end a) = None /\
  open_list a = [] /\ closed_list a = [].
Proof.
  intros H. apply init_accepted in H. destruct H as (Hrect & Hnn & H).
  apply init_grid_ok; assumption.
Qed.

Lemma search_grid_ok (fuel : nat) (a : AStar) (b : bool) (a' : AStar) :
  grid_ok a -> AStar.search fuel a = Ret (b, a') ->
  grid_ok a' /\ search_post (AStar.search_reset a) b a'.
Proof.
  intros G H. unfold AStar.search in H.
  pose proof (do_search_partial _ _ _ _ (search_reset_inv a G) H) as Hp.
  split; [|assumption].
  eapply search_post_grid_ok; [|exact Hp].
  eapply grid_ok_frame; [| | | exact G]; reflexivity.
Qed.

Lemma init_shared_init (l l' : list Node) (arr2d : list (list Z)) (a : AStar) :
  AStar.init_shared l l' arr2d = Ret a ->
  exists a0, AStar.init arr2d = Ret a0 /\
             a = mkAStar (layout a0) (node_start a0) (node_end a0) l l'.
Proof.
  unfold AStar.init, AStar.init_shared.
  destruct (getitem arr2d 0) as [row0| |]; try discriminate. cbn [bind]. cbv zeta.
  destruct (foldM _ _ _) as [[rows [[ns|] [ne|]]]| |]; try discriminate.
  cbn [bind]. intros H. inv H. eexists. split; reflexivity.
Qed.

Lemma instance_grid_ok (arr2d : list (list Z)) (a : AStar) :
  instance arr2d a -> grid_ok a.
Proof.
  induction 1 as [a H | fuel a b a' _ IH H | l l' a H | a l l' _ IH].
  - apply init_ok in H. tauto.
  - eapply search_grid_ok; eauto.
  - apply init_shared_init in H. destruct H as (a0 & H0 & ->).
    apply init_ok in H0. destruct H0 as [G _].
    eapply grid_ok_frame; [| | | exact G]; reflexivity.
  - eapply grid_ok_frame; [| | | exact IH]; reflexivity.
Qed.

(* ================================================================== *)
(** * Reachability *)
(* ================================================================== *)

(** Cells connected to [s], built from the start outwards. *)
Inductive reach (lay : list (list Node)) (s : Z * Z) : Z * Z -> Prop :=
| reach_start : free_cell lay s = true -> reach lay s s
| reach_step (q r : Z * Z) :
    reach lay s q -> adjacent8 q r -> free_cell lay r = true -> reach lay s r.

Lemma adjacent8_sym (p q : Z * Z) : adjacent8 p q -> adjacent8 q p.
Proof. unfold adjacent8, chebyshev. lia. Qed.

Lemma adjacent8_neq (p q : Z * Z) : adjacent8 p q -> p <> q.
Proof. unfold adjacent8, chebyshev. intros H ->. lia. Qed.

Lemma walk_ok_free (lay : list (list Node)) (p : Z * Z) (qs : list (Z * Z)) :
  walk_ok lay p qs -> free_cell lay p = true.
Proof. destruct qs; simpl; tauto. Qed.

Lemma last_cons {A : Type} (l : list A) :
  forall a d, last (a :: l) d = last l a.
Proof.
  induction l as [|b l IH]; intros a d; [reflexivity|].
  change (last (a :: b :: l) d) with (last (b :: l) d).
  rewrite (IH b d), (IH b a). reflexivity.
Qed.

Lemma walk_ok_snoc_iff (lay : list (list Node)) (r : Z * Z) :
  forall qs p,
    walk_ok lay p (qs ++ [r]) <->
    walk_ok lay p qs /\ adjacent8 (last qs p) r /\ free_cell lay r = true.
Proof.
  induction qs as [|q qs IH]; intros p.
  - simpl. tauto.
  - change ((q :: qs) ++ [r]) with (q :: (qs ++ [r])).
    cbn [walk_ok]. rewrite IH.
    rewrite last_cons. tauto.
Qed.

Lemma connected_reach (lay : list (list Node)) (p q : Z * Z) :
  connected lay p q <-> reach lay p q.
Proof.
  split.
  - intros (qs & Hw & Hlast). revert q Hw Hlast.
    induction qs as [|r qs IH] using rev_ind; intros q Hw Hlast.
    + simpl in *. subst. apply reach_start. tauto.
    + rewrite last_last in Hlast. subst r.
      apply walk_ok_snoc_iff in Hw. destruct Hw as (Hw & Hadj & Hfree).
      eapply reach_step; eauto.
  - induction 1 as [Hfree | q r _ IH Hadj Hfree].
    + exists []. simpl. auto.
    + destruct IH as (qs & Hw & Hlast).
      exists (qs ++ [r]). rewrite last_last. split; [|reflexivity].
      apply walk_ok_snoc_iff. rewrite Hlast. auto.
Qed.

Lemma chain_reach (a : AStar) (n : Node) :
  grid_ok a -> chain_ok (layout a) (node_start a) n ->
  reach (layout a) (coords (node_start a)) (coords n).
Proof.
  intros G H. induction H as [|n e He Hat Hobs Hadj Hch IH].
  - apply reach_start. apply chain_free; [assumption | constructor].
  - eapply reach_step; [exact IH | exact Hadj |].
    apply chain_free; [assumption|]. econstructor; eauto.
Qed.

Lemma exhausted_closed (a : AStar) (q : Z * Z) :
  search_inv a -> open_list a = [] ->
  reach (layout a) (coords (node_start a)) q ->
  In q (map coords (closed_list a)).
Proof.
  intros I Hopen H. induction H as [Hfree | q r _ IH Hadj Hfree].
  - pose proof (inv_start a I) as Hs. rewrite Hopen in Hs. exact Hs.
  - apply in_map_iff in IH. destruct IH as (c & <- & Hc).
    pose proof (inv_expanded a I c r Hc Hfree Hadj) as Hr.
    rewrite Hopen in Hr. exact Hr.
Qed.

Lemma kind_at_chain (a : AStar) (n : Node) :
  grid_ok a -> chain_ok (layout a) (node_start a) n ->
  kind_at (layout a) (coords n) = Some (Node.node_type n).
Proof.
  intros G H. unfold kind_at. rewrite (chain_node_at a n G H). reflexivity.
Qed.

Lemma kind_at_free (lay : list (list Node)) (q : Z * Z) (t : NodeType) :
  kind_at lay q = Some t -> t <> OBSTACLE -> free_cell lay q = true.
Proof.
  unfold kind_at, free_cell, Node.is_obstacle.
  destruct (node_at lay q) as [n|]; [|discriminate].
  simpl. intros H Ht. inv H. apply NodeType_eqb_neq in Ht. rewrite Ht. reflexivity.
Qed.

(** An exhausted frontier: no cell of kind End is connected to the start. *)
Lemma exhausted_no_end (a : AStar) (q : Z * Z) :
  search_inv a -> open_list a = [] ->
  kind_at (layout a) q = Some END ->
  ~ reach (layout a) (coords (node_start a)) q.
Proof.
  intros I Hopen Hkind Hreach. pose proof (inv_grid a I) as G.
  apply (exhausted_closed a q I Hopen) in Hreach.
  apply in_map_iff in Hreach. destruct Hreach as (c & <- & Hc).
  assert (Hch : chain_ok (layout a) (node_start a) c).
  { pose proof (inv_chain a I) as HF. rewrite Forall_forall in HF.
    apply HF. apply in_or_app. auto. }
  rewrite (kind_at_chain a c G Hch) in Hkind. inv Hkind.
  pose proof (inv_closed a I) as HF. rewrite Forall_forall in HF.
  specialize (HF c Hc). unfold Node.is_end in HF. rewrite H0 in HF. discriminate.
Qed.

(* ================================================================== *)
(** * The reconstructed path *)
(* ================================================================== *)

Fixpoint steps_adjacent (l : list (Z * Z)) : Prop :=
  match l with
  | p :: ((q :: _) as l') => adjacent8 p q /\ steps_adjacent l'
  | _ => True
  end.

Lemma steps_adjacent_nth (l : list (Z * Z)) :
  steps_adjacent l ->
  forall i p q, nth_error l i = Some p -> nth_error l (S i) = Some q ->
                adjacent8 p q.
Proof.
  induction l as [|a l IH]; intros H i p q Hp Hq.
  - destruct i; discriminate.
  - destruct l as [|b l]; [destruct i; discriminate|].
    destruct H as [Hab H]. destruct i as [|i].
    + simpl in *. inv Hp. inv Hq. assumption.
    + apply (IH H i p q); assumption.
Qed.

(** The state of a Start cell, as stored in the layout. *)
Definition start_cell (lay : list (list Node)) (p : Z * Z) : Prop :=
  kind_at lay p = Some START.

Lemma backtrack_spec (a : AStar) (t : Node) :
  grid_ok a -> chain_ok (layout a) (node_start a) t ->
  steps_adjacent (AStar.backtrack t) /\
  (forall p l, AStar.backtrack t = p :: l -> p = coords t) /\
  (forall l p, AStar.backtrack t = l ++ [p] ->
               exists sc, start_cell (layout a) sc /\ adjacent8 sc p) /\
  (AStar.backtrack t = [] -> start_cell (layout a) (coords t)).
Proof.
  intros G H. induction H as [|n e He Hat Hobs Hadj Hch IH].
  - assert (Hb : AStar.backtrack (node_start a) = []).
    { destruct (node_start a) as [sx sy st se] eqn:Hs.
      pose proof (start_no_edge a G) as Hn. rewrite Hs in Hn. simpl in Hn.
      subst se. reflexivity. }
    rewrite Hb. split; [exact I|]. split; [discriminate|].
    split; [intros [|? ?] ? ?; discriminate|].
    intros _. unfold start_cell, kind_at. rewrite (grid_start a G).
    simpl. rewrite (grid_start_kind a G). reflexivity.
  - assert (Hkind : kind_at (layout a) (coords n) = Some (Node.node_type n)).
    { unfold kind_at. rewrite Hat. reflexivity. }
    assert (Hb : AStar.backtrack n =
                 if negb (Node.is_start n)
                 then coords n :: AStar.backtrack (Edge.target e) else []).
    { destruct n as [nx ny nt ne]. simpl in He. subst ne. reflexivity. }
    rewrite Hb. clear Hb.
    destruct IH as (IH1 & IH2 & IH3 & IH4).
    destruct (Node.is_start n) eqn:Hst; cbn [negb].
    + split; [exact I|]. split; [discriminate|].
      split; [intros [|? ?] ? ?; discriminate|].
      intros _. unfold start_cell. rewrite Hkind. f_equal.
      apply NodeType_eqb_eq. exact Hst.
    + split; [|split; [|split]].
      * destruct (AStar.backtrack (Edge.target e)) as [|q l] eqn:Hl; [exact I|].
        split; [|assumption].
        rewrite (IH2 q l eq_refl). apply adjacent8_sym. assumption.
      * intros p l Hpl. inv Hpl. reflexivity.
      * intros l p Hlp.
        destruct (AStar.backtrack (Edge.target e)) as [|q l'] eqn:Hl.
        -- destruct l as [|? [|? ?]]; try discriminate.
           simpl in Hlp. inv Hlp. exists (coords (Edge.target e)). auto.
        -- destruct (exists_last (l := q :: l') ltac:(discriminate)) as (l'' & p' & Hq).
           rewrite Hq in Hlp. rewrite app_comm_cons in Hlp.
           apply app_inj_tail in Hlp. destruct Hlp as [_ <-].
           apply (IH3 l'' p'). exact Hq.
      * discriminate.
Qed.

(** ** States of a search *)

(** The outcome of a search after [k] calls of [__do_search]: a returned
    result, or the state the next call starts from. *)
Fixpoint calls (k : nat) (a : AStar) : outcome (bool * AStar + AStar) :=
  match k with
  | O => Ret (inr a)
  | S k' =>
      r <- calls k' a ;;
      match r with
      | inl res => Ret (inl res)
      | inr a' => AStar.do_search_body a'
      end
  end.

Lemma calls_inv (k : nat) :
  forall a st, search_inv a -> calls k a = Ret (inr st) ->
               search_inv st /\ layout st = layout a /\
               node_start st = node_start a /\
               length (closed_list st) = (length (closed_list a) + k)%nat.
Proof.
  induction k as [|k IH]; intros a st I H.
  - simpl in H. inv H. auto with arith.
  - cbn [calls] in H. destruct (calls k a) as [[res | a1]| |] eqn:Hk; try discriminate.
    cbn [bind] in H. destruct (IH a a1 I Hk) as (I1 & Hl & Hs & Hlen).
    destruct (do_search_body_ok a1 I1) as (r & Hr & Hcase).
    rewrite H in Hr. injection Hr as <-.
    inversion Hcase as [| |cur a' Hin Hend I' Hl' Hs' He' Hc']. subst a'.
    split; [assumption|]. split; [congruence|]. split; [congruence|].
    rewrite Hc', length_app. simpl. lia.
Qed.

Lemma do_search_mono (fuel : nat) :
  forall fuel' a r, (fuel <= fuel')%nat ->
    AStar.do_search fuel a = Ret r -> AStar.do_search fuel' a = Ret r.
Proof.
  induction fuel as [|fuel IH]; intros fuel' a r Hle H; [discriminate|].
  destruct fuel' as [|fuel']; [lia|].
  cbn [AStar.do_search] in *.
  destruct (AStar.do_search_body a) as [[res | a1]| |]; cbn [bind] in *;
    try discriminate; [assumption|].
  apply IH; [lia | assumption].
Qed.

(** The same facts about [search], a call of [__do_search] on the state
    the reset leaves. *)
Lemma search_mono (fuel fuel' : nat) (a : AStar) (r : bool * AStar) :
  (fuel <= fuel')%nat ->
  AStar.search fuel a = Ret r -> AStar.search fuel' a = Ret r.
Proof. unfold AStar.search. apply do_search_mono. Qed.

Lemma search_cases (fuel : nat) (a : AStar) :
  grid_ok a ->
  AStar.search fuel a = RecursionError \/
  exists b a', AStar.search fuel a = Ret (b, a') /\
               search_post (AStar.search_reset a) b a'.
Proof.
  intros G. unfold AStar.search. apply do_search_cases.
  apply search_reset_inv. assumption.
Qed.

Lemma search_total (fuel : nat) (a : AStar) :
  grid_ok a -> (cells a <= fuel)%nat ->
  exists b a', AStar.search fuel a = Ret (b, a') /\
               search_post (AStar.search_reset a) b a'.
Proof.
  intros G Hfuel. unfold AStar.search. apply do_search_total.
  - apply search_reset_inv. assumption.
  - unfold cells in *. cbn [layout closed_list AStar.search_reset length]. lia.
Qed.

(* ================================================================== *)
(** * Decoding of the input codes and the constructor *)
(* ================================================================== *)

(** C8: for every non-negative integer code, [NodeType.from_value] maps 0
    to Blank, 1 to Start, 2 to End, 3 to Obstacle, and every code strictly
    greater than 3, the maximum known kind value, to Obstacle. *)
Theorem from_value_clamps_to_obstacle (v : Z) :
  0 <= v ->
  (v = 0 -> NodeType.from_value v = Ret BLANK) /\
  (v = 1 -> NodeType.from_value v = Ret START) /\
  (v = 2 -> NodeType.from_value v = Ret END) /\
  (v = 3 -> NodeType.from_value v = Ret OBSTACLE) /\
  (3 < v -> NodeType.from_value v = Ret OBSTACLE).
Proof.
  intros Hv. rewrite (from_value_decode v Hv). unfold decode.
  repeat split; intros H;
    repeat match goal with
           | |- context [?x =? ?y] => destruct (Z.eqb_spec x y); try lia
           end; reflexivity.
Qed.

Lemma from_value_clamps_to_obstacle_witness :
  NodeType.from_value 0 = Ret BLANK /\
  NodeType.from_value 1 = Ret START /\
  NodeType.from_value 2 = Ret END /\
  NodeType.from_value 3 = Ret OBSTACLE /\
  NodeType.from_value 250 = Ret OBSTACLE.
Proof.
  split; [|split; [|split; [|split]]].
  - apply (from_value_clamps_to_obstacle 0); lia.
  - apply (from_value_clamps_to_obstacle 1); lia.
  - apply (from_value_clamps_to_obstacle 2); lia.
  - destruct (from_value_clamps_to_obstacle 3) as (_ & _ & _ & H & _); [lia|].
    apply H. reflexivity.
  - apply (from_value_clamps_to_obstacle 250); lia.
Defined.

Lemma has_kind_nodes (t : NodeType) (arr2d : list (list Z)) :
  non_negative arr2d ->
  (has_kind t arr2d <->
   exists n, In n (concat (rows_from 0 arr2d)) /\ Node.node_type n = t).
Proof.
  intros Hnn. unfold non_negative in Hnn. rewrite Forall_forall in Hnn.
  split.
  - intros (row & v & Hrow & Hv & Ht).
    apply In_nth_error in Hrow. destruct Hrow as [i Hi].
    apply In_nth_error in Hv. destruct Hv as [j Hj].
    apply from_value_Ret in Ht. destruct Ht as [_ ->].
    exists (mkNode (Z.of_nat i) (Z.of_nat j) (decode v) None).
    split; [|reflexivity]. apply in_rows_from. exists i, j, row, v. auto.
  - intros (n & Hn & Ht). apply in_rows_from in Hn.
    destruct Hn as (i & j & row & v & Hi & Hj & ->). simpl in Ht. subst t.
    exists row, v. apply nth_error_In in Hi. pose proof (nth_error_In _ _ Hj) as Hv.
    split; [assumption|]. split; [assumption|].
    apply from_value_decode. specialize (Hnn row Hi). rewrite Forall_forall in Hnn.
    auto.
Qed.

Lemma scan_start_iff (arr2d : list (list Z)) :
  non_negative arr2d ->
  (fst (scan_nodes (concat (rows_from 0 arr2d)) (None, None)) = None <->
   ~ has_kind START arr2d).
Proof.
  intros Hnn. rewrite scan_nodes_start_None, (has_kind_nodes START arr2d Hnn).
  cbn [fst]. rewrite Forall_forall. split.
  - intros [_ H] (n & Hn & Ht). specialize (H n Hn).
    unfold Node.is_start in H. rewrite Ht in H. discriminate.
  - intros H. split; [reflexivity|]. intros n Hn.
    destruct (Node.is_start n) eqn:E; [|reflexivity].
    exfalso. apply H. exists n. split; [assumption|].
    apply NodeType_eqb_eq. exact E.
Qed.

Lemma scan_end_iff (arr2d : list (list Z)) :
  non_negative arr2d ->
  (snd (scan_nodes (concat (rows_from 0 arr2d)) (None, None)) = None <->
   ~ has_kind END arr2d).
Proof.
  intros Hnn. rewrite scan_nodes_end_None, (has_kind_nodes END arr2d Hnn).
  cbn [snd]. rewrite Forall_forall. split.
  - intros [_ H] (n & Hn & Ht). specialize (H n Hn).
    unfold Node.is_end in H. rewrite Ht in H. discriminate.
  - intros H. split; [reflexivity|]. intros n Hn.
    destruct (Node.is_end n) eqn:E; [|reflexivity].
    exfalso. apply H. exists n. split; [assumption|].
    apply NodeType_eqb_eq. exact E.
Qed.

(** C5, as the code has it: for every rectangular array of non-negative
    codes with at least one row, the constructor raises the invalid
    layout error if and only if no cell decodes to Start or no cell
    decodes to End, and succeeds when there is at least one of each. *)
Theorem init_invalid_layout_iff (arr2d : list (list Z)) :
  arr2d <> [] -> rectangular arr2d -> non_negative arr2d ->
  ((exists msg, AStar.init arr2d = Raise (InvalidLayoutInitializationException msg)) <->
   (~ has_kind START arr2d \/ ~ has_kind END arr2d)) /\
  (has_kind START arr2d -> has_kind END arr2d -> exists a, AStar.init arr2d = Ret a).
Proof.
  intros Hne Hrect Hnn.
  assert (Harr : exists row0 rest, arr2d = row0 :: rest).
  { destruct arr2d; [congruence | eauto]. }
  destruct Harr as (row0 & rest & Harr).
  rewrite (init_eq arr2d Hnn row0 rest Harr Hrect).
  pose proof (scan_start_iff arr2d Hnn) as Hs.
  pose proof (scan_end_iff arr2d Hnn) as He.
  destruct (scan_nodes (concat (rows_from 0 arr2d)) (None, None)) as [[ns|] [ne|]];
    cbn [fst snd] in Hs, He.
  - split.
    + split; [intros [msg H]; discriminate|].
      intros [H | H]; [apply Hs in H | apply He in H]; discriminate.
    + eauto.
  - split.
    + split; [intros _; right; apply He; reflexivity | eauto].
    + intros _ H. exfalso. apply He; auto.
  - split.
    + split; [intros _; left; apply Hs; reflexivity | eauto].
    + intros H _. exfalso. apply Hs; auto.
  - split.
    + split; [intros _; left; apply Hs; reflexivity | eauto].
    + intros H _. exfalso. apply Hs; auto.
Qed.

Lemma init_invalid_layout_iff_witness :
  ((exists msg, AStar.init [[0; 2]; [3; 0]] =
                Raise (InvalidLayoutInitializationException msg)) <->
   (~ has_kind START [[0; 2]; [3; 0]] \/ ~ has_kind END [[0; 2]; [3; 0]])) /\
  (exists msg, AStar.init [[0; 2]; [3; 0]] =
               Raise (InvalidLayoutInitializationException msg)).
Proof.
  split.
  - apply (init_invalid_layout_iff [[0; 2]; [3; 0]]).
    + discriminate.
    + repeat constructor.
    + repeat constructor; lia.
  - eexists. reflexivity.
Defined.

(** C5 as stated fails on the array without rows: no cell decodes to
    Start, and the constructor raises [IndexError] at [arr2d[0]], not the
    invalid layout error. *)
Lemma init_no_rows_IndexError :
  rectangular (@nil (list Z)) /\ non_negative [] /\
  ~ has_kind START [] /\
  AStar.init [] = Raise IndexError.
Proof.
  split; [constructor|]. split; [constructor|]. split; [|reflexivity].
  intros (row & v & [] & _).
Qed.

(* ================================================================== *)
(** * The search finds an End cell exactly when one is connected *)
(* ================================================================== *)

Lemma end_node_edge (a : AStar) (ne : Node) :
  grid_ok a -> chain_ok (layout a) (node_start a) ne -> Node.is_end ne = true ->
  exists e, Node.edge_to_parent ne = Some e /\
            adjacent8 (coords (Edge.target e)) (coords ne) /\
            chain_ok (layout a) (node_start a) (Edge.target e).
Proof.
  intros G H Hend. destruct H as [|n e He _ _ Hadj Hch].
  - unfold Node.is_end in Hend. rewrite (grid_start_kind a G) in Hend. discriminate.
  - eauto.
Qed.

(** A corridor of one row and a thousand cells, the start at one end and
    the end at the other. *)
Definition corridor : list (list Z) := [1 :: repeat 0 998 ++ [2]].

(** On the corridor the end cell is connected to the start, and the
    search needs a thousand nested calls of [__do_search]: with room for
    999, which is more than the default recursion limit of 1000 frames
    leaves below [search] and its caller, it ends in [RecursionError]. *)
Lemma corridor_exceeds_limit :
  AStar.init corridor =
    Ret (mkAStar (rows_from 0 corridor)
                 (mkNode 0 0 START None) (mkNode 0 999 END None) [] []) /\
  cells (mkAStar (rows_from 0 corridor)
                 (mkNode 0 0 START None) (mkNode 0 999 END None) [] []) = 1000%nat /\
  kind_at (rows_from 0 corridor) (0, 999) = Some END /\
  connected (rows_from 0 corridor) (0, 0) (0, 999) /\
  AStar.search 999 (mkAStar (rows_from 0 corridor)
                            (mkNode 0 0 START None) (mkNode 0 999 END None) [] []) =
    RecursionError.
Proof.
  split; [vm_compute; reflexivity|]. split; [vm_compute; reflexivity|].
  split; [vm_compute; reflexivity|]. split; [|vm_compute; reflexivity].
  assert (Hfree : (let lay := rows_from 0 corridor in
                   forallb (fun k => free_cell lay (0, Z.of_nat k)) (seq 0 1000)) =
                  true) by (vm_compute; reflexivity).
  cbv zeta in Hfree. rewrite forallb_forall in Hfree.
  assert (Hreach : forall k, (k < 1000)%nat ->
                             reach (rows_from 0 corridor) (0, 0) (0, Z.of_nat k)).
  { induction k as [|k IH]; intros Hk.
    - apply reach_start. apply (Hfree 0%nat). apply in_seq. lia.
    - apply reach_step with (q := (0, Z.of_nat k)).
      + apply IH. lia.
      + unfold adjacent8, chebyshev. cbn [fst snd]. lia.
      + apply (Hfree (S k)). apply in_seq. lia. }
  apply connected_reach. apply (Hreach 999%nat). lia.
Qed.

(** C1, as the code has it: on every instance of an accepted grid,
    whenever [search] returns, it returns True if and only if there is a
    sequence of cells from the start cell to a cell of kind End (any End
    cell of the grid, which is the end cell when the grid has one End
    cell) in which consecutive cells are 8-adjacent and no cell is an
    Obstacle, and it returns False exactly when the frontier is exhausted
    and no End cell was visited. [search] raises no exception of the
    code, and it returns whenever the recursion limit leaves room for as
    many nested calls of [__do_search] as the grid has cells. *)
Theorem search_true_iff_end_connected
    (arr2d : list (list Z)) (a : AStar) (fuel : nat) :
  instance arr2d a ->
  (forall b a',
     AStar.search fuel a = Ret (b, a') ->
     (b = true <->
      exists q, kind_at (layout a) q = Some END /\
                connected (layout a) (coords (node_start a)) q) /\
     (b = false <->
      open_list a' = [] /\
      Forall (fun n => Node.is_end n = false) (closed_list a'))) /\
  (forall e, AStar.search fuel a <> Raise e) /\
  ((cells a <= fuel)%nat -> exists b a', AStar.search fuel a = Ret (b, a')).
Proof.
  intros Hinst. pose proof (instance_grid_ok arr2d a Hinst) as G.
  pose proof (search_reset_inv a G) as I.
  split; [|split].
  - intros b a' Hs. unfold AStar.search in Hs.
    pose proof (do_search_partial fuel _ b a' I Hs) as Hp.
    destruct Hp as (Hl & Hst & Hchain & Hb).
    cbn [layout node_start node_end AStar.search_reset] in Hl, Hst, Hchain, Hb.
    destruct b.
    + destruct Hb as (Hch & Hend & Hin). split.
      * split; [intros _ | reflexivity].
        exists (coords (node_end a')). split.
        -- rewrite (kind_at_chain a _ G Hch). f_equal.
           apply NodeType_eqb_eq. exact Hend.
        -- apply connected_reach. apply chain_reach; assumption.
      * split; [discriminate|]. intros [_ HF]. rewrite Forall_forall in HF.
        specialize (HF _ Hin). congruence.
    + destruct Hb as (He & I' & Hopen). split.
      * split; [discriminate|]. intros (q & Hq & Hconn). exfalso.
        apply connected_reach in Hconn.
        apply (exhausted_no_end a' q I' Hopen); rewrite ?Hl, ?Hst; assumption.
      * split; [intros _ | reflexivity].
        split; [assumption | apply (inv_closed a' I')].
  - intros e H. unfold AStar.search in H.
    destruct (do_search_cases fuel (AStar.search_reset a) I)
      as [Hout | (b & a' & Hret & _)]; congruence.
  - intros Hfuel.
    destruct (do_search_total fuel (AStar.search_reset a) I) as (b & a' & Hs & _).
    { cbn [closed_list AStar.search_reset length]. unfold cells in *.
      cbn [layout AStar.search_reset]. lia. }
    exists b, a'. exact Hs.
Qed.

Lemma search_true_iff_end_connected_witness :
  exists b a',
    AStar.search 4 (mkAStar (rows_from 0 [[1; 0; 3; 2]])
                            (mkNode 0 0 START None) (mkNode 0 3 END None) [] []) =
    Ret (b, a') /\
    (b = true <->
     exists q, kind_at (rows_from 0 [[1; 0; 3; 2]]) q = Some END /\
               connected (rows_from 0 [[1; 0; 3; 2]]) (0, 0) q) /\
    (b = false <->
     open_list a' = [] /\ Forall (fun n => Node.is_end n = false) (closed_list a')).
Proof.
  destruct (search_true_iff_end_connected [[1; 0; 3; 2]]
              (mkAStar (rows_from 0 [[1; 0; 3; 2]])
                       (mkNode 0 0 START None) (mkNode 0 3 END None) [] []) 4%nat)
    as (Hchar & _ & Hret).
  - apply instance_new. reflexivity.
  - destruct Hret as (b & a' & Hs); [vm_compute; lia|].
    exists b, a'. split; [exact Hs | apply Hchar; exact Hs].
Defined.

(** C1 as stated fails with two End cells: the end cell the constructor
    records is the last one, (0, 3), which the obstacle at (0, 2) cuts
    off from the start; [search] returns True all the same, on reaching
    the End cell at (0, 1). It fails on the corridor too, where the end
    cell is connected to the start and [search], with room for 999 nested
    calls, ends in [RecursionError] instead of returning True. *)
Lemma search_true_without_path_to_end_cell :
  (exists a a',
     AStar.init [[1; 2; 3; 2]] = Ret a /\
     AStar.search 4 a = Ret (true, a') /\
     coords (node_start a) = (0, 0) /\ coords (node_end a) = (0, 3) /\
     ~ connected (layout a) (coords (node_start a)) (coords (node_end a))) /\
  (exists a,
     AStar.init corridor = Ret a /\
     kind_at (layout a) (coords (node_end a)) = Some END /\
     connected (layout a) (coords (node_start a)) (coords (node_end a)) /\
     AStar.search 999 a = RecursionError).
Proof.
  split.
  2:{ destruct corridor_exceeds_limit as (Hi & _ & Hk & Hc & Hs).
      eexists. split; [exact Hi|]. split; [exact Hk|]. split; [exact Hc | exact Hs]. }
  eexists. eexists.
  split; [vm_compute; reflexivity|]. split; [vm_compute; reflexivity|].
  split; [reflexivity|]. split; [reflexivity|].
  cbn [layout node_start node_end coords Node.x Node.y].
  match goal with |- ~ connected ?l _ _ => set (lay := l) end.
  assert (Hfree : forall r, free_cell lay r = true ->
                            r = (0, 0) \/ r = (0, 1) \/ r = (0, 3)).
  { intros r Hr. unfold free_cell in Hr.
    destruct (node_at lay r) as [n|] eqn:Hn; [|discriminate].
    assert (Hin : In r (all_coords lay)).
    { apply (node_at_all_coords lay r n); [repeat constructor | assumption]. }
    vm_compute in Hin.
    destruct Hin as [<- | [<- | [<- | [<- | []]]]]; auto.
    vm_compute in Hn. injection Hn as <-. vm_compute in Hr. discriminate. }
  assert (Hreach : forall q, reach lay (0, 0) q -> snd q <= 1).
  { induction 1 as [_ | q r _ IH Hadj Hr]; [simpl; lia|].
    apply Hfree in Hr. unfold adjacent8, chebyshev in Hadj.
    destruct Hr as [-> | [-> | ->]]; simpl in *; lia. }
  intros H. apply connected_reach in H. apply Hreach in H. simpl in H. lia.
Qed.

(* ================================================================== *)
(** * The result of [get_result] *)
(* ================================================================== *)

Lemma steps_adjacent_rev_nth (l : list (Z * Z)) :
  steps_adjacent l ->
  forall i p q, nth_error (rev l) i = Some p -> nth_error (rev l) (S i) = Some q ->
                adjacent8 p q.
Proof.
  intros H i p q Hp Hq. rewrite nth_error_rev in Hp, Hq.
  destruct (Nat.ltb_spec (S i) (length l)) as [Hlt|]; [|discriminate].
  destruct (Nat.ltb_spec i (length l)) as [_|]; [|discriminate].
  apply adjacent8_sym.
  apply (steps_adjacent_nth l H (length l - S (S i)) q p); [assumption|].
  replace (S (length l - S (S i))) with (length l - S i)%nat by lia.
  assumption.
Qed.

(** After a successful search the end node carries an edge whose chain
    of parents leads back to the start. *)
Lemma search_true_end (arr2d : list (list Z)) (a : AStar) (fuel : nat) (a' : AStar) :
  instance arr2d a -> AStar.search fuel a = Ret (true, a') ->
  grid_ok a /\ layout a' = layout a /\
  Node.is_end (node_end a') = true /\
  exists e, Node.edge_to_parent (node_end a') = Some e /\
            adjacent8 (coords (Edge.target e)) (coords (node_end a')) /\
            chain_ok (layout a) (node_start a) (Edge.target e) /\
            AStar.get_result a' = Ret (rev (AStar.backtrack (Edge.target e))).
Proof.
  intros Hinst Hs. pose proof (instance_grid_ok arr2d a Hinst) as G.
  destruct (search_grid_ok fuel a true a' G Hs) as (_ & Hl & _ & _ & Hch & Hend & _).
  cbn [layout node_start AStar.search_reset] in Hl, Hch.
  destruct (end_node_edge a _ G Hch Hend) as (e & He & Hadj & Hte).
  split; [assumption|]. split; [assumption|]. split; [assumption|].
  exists e. repeat split; try assumption.
  unfold AStar.get_result, Node.has_edge_to_parent, Node.the_edge.
  rewrite He. reflexivity.
Qed.

(** C2: on every instance of an accepted grid on which [search] returned
    True, [get_result] returns a sequence in which every pair of
    consecutive coordinates is at Chebyshev distance exactly 1. *)
Theorem get_result_consecutive_adjacent
    (arr2d : list (list Z)) (a : AStar) (fuel : nat) (a' : AStar) :
  instance arr2d a -> AStar.search fuel a = Ret (true, a') ->
  exists path,
    AStar.get_result a' = Ret path /\
    forall i p q, nth_error path i = Some p -> nth_error path (S i) = Some q ->
                  chebyshev p q = 1.
Proof.
  intros Hinst Hs.
  destruct (search_true_end arr2d a fuel a' Hinst Hs)
    as (G & _ & _ & e & _ & _ & Hch & Hres).
  eexists. split; [exact Hres|].
  apply steps_adjacent_rev_nth. apply (backtrack_spec a _ G Hch).
Qed.

Lemma get_result_consecutive_adjacent_witness :
  exists a',
    AStar.search 35 (mkAStar (rows_from 0 example_grid)
                             (mkNode 2 1 START None) (mkNode 2 5 END None) [] []) =
    Ret (true, a') /\
    exists path,
      AStar.get_result a' = Ret path /\
      forall i p q, nth_error path i = Some p -> nth_error path (S i) = Some q ->
                    chebyshev p q = 1.
Proof.
  eexists. split; [vm_compute; reflexivity|].
  eapply (get_result_consecutive_adjacent example_grid
            (mkAStar (rows_from 0 example_grid)
                     (mkNode 2 1 START None) (mkNode 2 5 END None) [] []) 35%nat).
  - apply instance_new. reflexivity.
  - vm_compute. reflexivity.
Defined.

Lemma backtrack_start_cell (a : AStar) (t : Node) :
  grid_ok a -> chain_ok (layout a) (node_start a) t ->
  start_cell (layout a) (coords t) -> AStar.backtrack t = [].
Proof.
  intros G H Hsc. pose proof (kind_at_chain a t G H) as Hk.
  unfold start_cell in Hsc. rewrite Hk in Hsc. injection Hsc as Hsc.
  destruct t as [tx ty tt [e|]]; [|reflexivity].
  cbn [Node.node_type] in Hsc. subst tt. reflexivity.
Qed.

(** C3, as the code has it: on every instance of an accepted grid, after
    [search] returned True, [get_result] returns the cells strictly
    between a start and the end: when the sequence is not empty, its
    first element is 8-adjacent to a cell of kind Start (to the start
    cell when the grid has no other Start cell) and its last element is
    8-adjacent to the end cell found, hence different from it; when it is
    empty, the end cell found is 8-adjacent to a cell of kind Start; and
    it is empty exactly when the parent of the end node found stands on a
    cell of kind Start. *)
Theorem get_result_first_and_last
    (arr2d : list (list Z)) (a : AStar) (fuel : nat) (a' : AStar) :
  instance arr2d a -> AStar.search fuel a = Ret (true, a') ->
  kind_at (layout a) (coords (node_end a')) = Some END /\
  exists path,
    AStar.get_result a' = Ret path /\
    (forall first rest, path = first :: rest ->
       exists sc, start_cell (layout a) sc /\ adjacent8 sc first) /\
    (forall first rest, path = first :: rest ->
       (forall sc, start_cell (layout a) sc -> sc = coords (node_start a)) ->
       adjacent8 (coords (node_start a)) first) /\
    (forall front lst, path = front ++ [lst] ->
       adjacent8 lst (coords (node_end a')) /\ lst <> coords (node_end a')) /\
    (path = [] ->
       exists sc, start_cell (layout a) sc /\ adjacent8 sc (coords (node_end a'))) /\
    (forall e, Node.edge_to_parent (node_end a') = Some e ->
       (path = [] <-> start_cell (layout a) (coords (Edge.target e)))).
Proof.
  intros Hinst Hs.
  destruct (search_true_end arr2d a fuel a' Hinst Hs)
    as (G & Hl & Hend & e & He & Hadj & Hch & Hres).
  destruct (backtrack_spec a _ G Hch) as (_ & Hhd & Hlast & Hnil).
  assert (Hfirst : forall first rest,
             rev (AStar.backtrack (Edge.target e)) = first :: rest ->
             exists sc, start_cell (layout a) sc /\ adjacent8 sc first).
  { intros first rest Hp. apply (Hlast (rev rest) first).
    rewrite <- (rev_involutive (AStar.backtrack (Edge.target e))), Hp.
    reflexivity. }
  split.
  { destruct (search_grid_ok fuel a true a' G Hs) as (_ & _ & _ & _ & Hce & _).
    cbn [layout node_start AStar.search_reset] in Hce.
    rewrite (kind_at_chain a _ G Hce). f_equal. apply NodeType_eqb_eq. exact Hend. }
  eexists. split; [exact Hres|]. split; [exact Hfirst|]. split; [|split; [|split]].
  - intros first rest Hp Honly.
    destruct (Hfirst first rest Hp) as (sc & Hsc & Hadj').
    rewrite <- (Honly sc Hsc). assumption.
  - intros front lst Hp.
    assert (Hb : AStar.backtrack (Edge.target e) = lst :: rev front).
    { rewrite <- (rev_involutive (AStar.backtrack (Edge.target e))), Hp.
      rewrite rev_app_distr. reflexivity. }
    rewrite (Hhd _ _ Hb). split; [assumption|].
    apply adjacent8_neq. assumption.
  - intros Hp.
    assert (Hb : AStar.backtrack (Edge.target e) = []).
    { rewrite <- (rev_involutive (AStar.backtrack (Edge.target e))), Hp.
      reflexivity. }
    exists (coords (Edge.target e)). split; [apply Hnil; assumption | assumption].
  - intros e' He'. rewrite He in He'. injection He' as <-. split.
    + intros Hp. apply Hnil.
      rewrite <- (rev_involutive (AStar.backtrack (Edge.target e))), Hp.
      reflexivity.
    + intros Hsc. rewrite (backtrack_start_cell a _ G Hch Hsc). reflexivity.
Qed.

Lemma get_result_first_and_last_witness :
  exists a',
    AStar.search 35 (mkAStar (rows_from 0 example_grid)
                             (mkNode 2 1 START None) (mkNode 2 5 END None) [] []) =
    Ret (true, a') /\
    AStar.get_result a' = Ret [(1, 2); (0, 3); (1, 4)] /\
    kind_at (rows_from 0 example_grid) (coords (node_end a')) = Some END.
Proof.
  eexists. split; [vm_compute; reflexivity|]. split; [vm_compute; reflexivity|].
  eapply (get_result_first_and_last example_grid
            (mkAStar (rows_from 0 example_grid)
                     (mkNode 2 1 START None) (mkNode 2 5 END None) [] []) 35%nat).
  - apply instance_new. reflexivity.
  - vm_compute. reflexivity.
Defined.

(** C3 as stated fails on the example grid of the class docstring: the
    sequence ends with (1, 4), a neighbour of the end cell (2, 5), not
    with the end cell. *)
Lemma get_result_last_is_not_end_cell :
  exists a a' path,
    AStar.init example_grid = Ret a /\
    AStar.search 35 a = Ret (true, a') /\
    AStar.get_result a' = Ret path /\
    coords (node_end a') = (2, 5) /\
    path = [(1, 2); (0, 3); (1, 4)] /\
    last path (0, 0) <> coords (node_end a').
Proof.
  eexists. eexists. eexists.
  split; [vm_compute; reflexivity|]. split; [vm_compute; reflexivity|].
  split; [vm_compute; reflexivity|]. split; [reflexivity|].
  split; [reflexivity|]. discriminate.
Qed.

(* ================================================================== *)
(** * [get_result] before and after a successful search *)
(* ================================================================== *)

Lemma get_result_cases (a : AStar) :
  (Node.has_edge_to_parent (node_end a) = false /\
   AStar.get_result a = Raise (PathNotFoundException "Call search first.")) \/
  (Node.has_edge_to_parent (node_end a) = true /\
   exists path, AStar.get_result a = Ret path).
Proof.
  unfold AStar.get_result, Node.has_edge_to_parent, Node.the_edge.
  destruct (Node.edge_to_parent (node_end a)); simpl; eauto.
Qed.

Lemma search_end_edge (fuel : nat) (a : AStar) (b : bool) (a' : AStar) :
  grid_ok a -> AStar.search fuel a = Ret (b, a') ->
  Node.has_edge_to_parent (node_end a') =
  b || Node.has_edge_to_parent (node_end a).
Proof.
  intros G Hs.
  destruct (search_grid_ok fuel a b a' G Hs) as (_ & _ & _ & _ & Hb).
  cbn [layout node_start node_end AStar.search_reset] in Hb.
  destruct b; cbn [orb].
  - destruct Hb as (Hch & Hend & _).
    destruct (end_node_edge a _ G Hch Hend) as (e & He & _).
    unfold Node.has_edge_to_parent. rewrite He. reflexivity.
  - destruct Hb as (He & _). rewrite He. reflexivity.
Qed.

Lemma searches_end_edge (fuel k : nat) :
  forall a bs a',
    grid_ok a -> searches fuel k a = Ret (bs, a') ->
    grid_ok a' /\
    Node.has_edge_to_parent (node_end a') =
    existsb (fun b => b) bs || Node.has_edge_to_parent (node_end a).
Proof.
  induction k as [|k IH]; intros a bs a' G H.
  - simpl in H. inv H. auto.
  - cbn [searches] in H.
    destruct (AStar.search fuel a) as [[b a1]| |] eqn:Hs; try discriminate.
    cbn [bind] in H.
    destruct (searches fuel k a1) as [[bs' a2]| |] eqn:Hk; try discriminate.
    cbn [bind] in H. inv H.
    pose proof (search_grid_ok fuel a b a1 G Hs) as [G1 _].
    destruct (IH a1 bs' a' G1 Hk) as (G' & He).
    split; [assumption|]. rewrite He, (search_end_edge fuel a b a1 G Hs).
    cbn [existsb]. destruct b, (existsb (fun b => b) bs'); reflexivity.
Qed.

(** C4: for every grid accepted by the constructor and every number of
    calls of [search] on the instance, [get_result] raises the path not
    found error if and only if none of the calls returned True (there was
    no call, or all returned False); otherwise it returns a path. *)
Theorem get_result_raises_iff_no_search_succeeded
    (arr2d : list (list Z)) (a : AStar) (fuel k : nat)
    (bs : list bool) (a' : AStar) :
  AStar.init arr2d = Ret a -> searches fuel k a = Ret (bs, a') ->
  (AStar.get_result a' = Raise (PathNotFoundException "Call search first.") <->
   Forall (fun b => b = false) bs) /\
  (Exists (fun b => b = true) bs -> exists path, AStar.get_result a' = Ret path) /\
  (forall e, AStar.get_result a' = Raise e -> Forall (fun b => b = false) bs).
Proof.
  intros Hinit Hk.
  destruct (init_ok arr2d a Hinit) as (G & _ & He & _).
  destruct (searches_end_edge fuel k a bs a' G Hk) as (_ & Hedge).
  unfold Node.has_edge_to_parent in Hedge at 2. rewrite He, orb_false_r in Hedge.
  assert (Hall : existsb (fun b => b) bs = false <-> Forall (fun b => b = false) bs).
  { rewrite Forall_forall. split.
    - intros H b Hb. destruct b; [|reflexivity].
      assert (existsb (fun b => b) bs = true)
        by (apply existsb_exists; exists true; auto).
      congruence.
    - intros H. destruct (existsb (fun b => b) bs) eqn:E; [|reflexivity].
      apply existsb_exists in E. destruct E as (b & Hb & ->).
      specialize (H true Hb). discriminate. }
  destruct (get_result_cases a') as [(Hno & Hr) | (Hyes & path & Hr)];
    rewrite Hr.
  - rewrite Hno in Hedge. symmetry in Hedge. apply Hall in Hedge.
    split; [tauto|]. split; [|auto].
    intros Hex. apply Exists_exists in Hex. destruct Hex as (b & Hb & ->).
    rewrite Forall_forall in Hedge. specialize (Hedge true Hb). discriminate.
  - rewrite Hyes in Hedge. split; [|split].
    + split; [discriminate|]. intros H. apply Hall in H. congruence.
    + eauto.
    + discriminate.
Qed.

Lemma get_result_raises_iff_no_search_succeeded_witness :
  exists a bs a',
    AStar.init [[1; 3; 2]; [3; 3; 0]] = Ret a /\
    searches 6 2 a = Ret (bs, a') /\ bs = [false; false] /\
    (AStar.get_result a' = Raise (PathNotFoundException "Call search first.") <->
     Forall (fun b => b = false) bs).
Proof.
  eexists. eexists. eexists.
  split; [vm_compute; reflexivity|]. split; [vm_compute; reflexivity|].
  split; [reflexivity|].
  eapply (get_result_raises_iff_no_search_succeeded [[1; 3; 2]; [3; 3; 0]] _ 6 2).
  - vm_compute. reflexivity.
  - vm_compute. reflexivity.
Defined.

(* ================================================================== *)
(** * The example of the class docstring *)
(* ================================================================== *)

(** C6: on the example grid, with the start at (2, 1), the end at (2, 5)
    and obstacles at (1, 3), (2, 3) and (3, 3), [search] returns True and
    the sequence [get_result] returns contains none of the obstacle
    coordinates. *)
Theorem example_grid_path_avoids_obstacles :
  exists a a' path,
    AStar.init example_grid = Ret a /\
    coords (node_start a) = (2, 1) /\ coords (node_end a) = (2, 5) /\
    kind_at (layout a) (1, 3) = Some OBSTACLE /\
    kind_at (layout a) (2, 3) = Some OBSTACLE /\
    kind_at (layout a) (3, 3) = Some OBSTACLE /\
    AStar.search 35 a = Ret (true, a') /\
    AStar.get_result a' = Ret path /\
    ~ In (1, 3) path /\ ~ In (2, 3) path /\ ~ In (3, 3) path.
Proof.
  eexists. eexists. exists [(1, 2); (0, 3); (1, 4)].
  split; [vm_compute; reflexivity|].
  do 5 (split; [reflexivity|]).
  split; [vm_compute; reflexivity|]. split; [vm_compute; reflexivity|].
  repeat split; intros H; simpl in H;
    repeat (destruct H as [H | H]; [discriminate|]); contradiction.
Qed.

(* ================================================================== *)
(** * Termination *)
(* ================================================================== *)

Lemma NoDup_app_disjoint {A : Type} (l1 l2 : list A) (x : A) :
  NoDup (l1 ++ l2) -> In x l1 -> ~ In x l2.
Proof.
  induction l1 as [|a l1 IH]; intros Hnd Hin; [contradiction|].
  simpl in Hnd. inv Hnd. destruct Hin as [-> | Hin].
  - intros H. apply H1. apply in_or_app. auto.
  - apply IH; assumption.
Qed.

(** X15: on every instance of an accepted grid the recursion of
    [__do_search] is at most as deep as the grid has cells, and [search]
    returns whenever the recursion limit of the interpreter leaves room
    for that many nested calls: every call of [__do_search] that goes on
    to a recursive call has moved exactly one node from the frontier to
    the end of the visited list, no node of the frontier is in the
    visited list, and the state after [k] calls has [k] visited nodes,
    fewer than there are cells. *)
Theorem search_terminates_within_cells (arr2d : list (list Z)) (a : AStar) :
  instance arr2d a ->
  (forall fuel, (cells a <= fuel)%nat ->
     exists b a', AStar.search fuel a = Ret (b, a')) /\
  (forall k st,
     calls k (AStar.search_reset a) = Ret (inr st) ->
     length (closed_list st) = k /\ (k < cells a)%nat /\
     Forall (fun n => contains (closed_list st) n = false) (open_list st) /\
     forall st',
       AStar.do_search_body st = Ret (inr st') ->
       exists cur,
         In cur (open_list st) /\
         closed_list st' = closed_list st ++ [cur] /\
         contains (open_list st') cur = false).
Proof.
  intros Hinst. pose proof (instance_grid_ok arr2d a Hinst) as G.
  pose proof (search_reset_inv a G) as I.
  assert (Hdisj : forall st, search_inv st ->
            Forall (fun n => contains (closed_list st) n = false) (open_list st)).
  { intros st Ist. apply Forall_forall. intros n Hn.
    apply contains_false_iff.
    pose proof (inv_nodup st Ist) as Hnd. rewrite map_app in Hnd.
    apply (NoDup_app_disjoint _ _ _ Hnd). apply in_map. assumption. }
  split.
  - intros fuel Hfuel.
    destruct (do_search_total fuel (AStar.search_reset a) I) as (b & a' & Hs & _).
    { unfold cells in *. cbn [layout closed_list AStar.search_reset length]. lia. }
    exists b, a'. exact Hs.
  - intros k st Hk.
    destruct (calls_inv k _ st I Hk) as (Ist & Hl & _ & Hlen).
    cbn [closed_list layout AStar.search_reset length Nat.add] in Hlen, Hl.
    split; [assumption|]. split.
    { pose proof (closed_lt_cells st Ist) as Hlt. unfold cells in *.
      rewrite Hl in Hlt. lia. }
    split; [apply Hdisj; assumption|].
    intros st' Hbody.
    destruct (do_search_body_ok st Ist) as (r & Hr & Hcase).
    rewrite Hbody in Hr. injection Hr as <-.
    inversion Hcase as [| |cur a2 Hin Hend I' Hl' Hs' He' Hc']. subst a2.
    exists cur. split; [assumption|]. split; [assumption|].
    apply contains_false_iff. intros Hopen.
    pose proof (inv_nodup st' I') as Hnd. rewrite map_app in Hnd.
    apply (NoDup_app_disjoint _ _ _ Hnd Hopen).
    rewrite Hc', map_app. apply in_or_app. right. left. reflexivity.
Qed.

Lemma search_terminates_within_cells_witness :
  exists b a',
    AStar.search 35 (mkAStar (rows_from 0 example_grid)
                             (mkNode 2 1 START None) (mkNode 2 5 END None)
                             [] []) = Ret (b, a').
Proof.
  apply (search_terminates_within_cells example_grid
           (mkAStar (rows_from 0 example_grid)
                    (mkNode 2 1 START None) (mkNode 2 5 END None) [] [])).
  - apply instance_new. reflexivity.
  - vm_compute. lia.
Defined.

(** C7 fails in the code: [search] does not reach a return on every
    accepted grid. On the corridor, which the constructor accepts,
    [__do_search] nests one call for each of the thousand cells before
    the end cell is selected: [search] ends in [RecursionError] whenever
    the recursion limit leaves room for fewer than a thousand nested
    calls, as the default limit of 1000 frames does, and returns True
    only when it leaves room for a thousand or more. *)
Theorem search_corridor_recursion_error :
  exists a,
    AStar.init corridor = Ret a /\
    cells a = 1000%nat /\
    (forall fuel, (fuel < 1000)%nat -> AStar.search fuel a = RecursionError) /\
    (forall fuel, (1000 <= fuel)%nat ->
       exists a', AStar.search fuel a = Ret (true, a')).
Proof.
  destruct corridor_exceeds_limit as (Hi & Hc & Hk & Hconn & Hs).
  eexists. split; [exact Hi|]. split; [exact Hc|].
  assert (Hinst : instance corridor
                    (mkAStar (rows_from 0 corridor)
                             (mkNode 0 0 START None) (mkNode 0 999 END None) [] []))
    by (apply instance_new; exact Hi).
  pose proof (instance_grid_ok _ _ Hinst) as G.
  split.
  - intros fuel Hfuel.
    destruct (search_cases fuel _ G) as [H | (b & a' & H & _)]; [exact H|].
    exfalso. apply (search_mono fuel 999) in H; [|clear - Hfuel; lia].
    rewrite Hs in H. discriminate H.
  - clear Hs. intros fuel Hfuel.
    destruct (search_total 1000 _ G) as (b & a' & Hr & Hp).
    { rewrite Hc. apply Nat.le_refl. }
    exists a'. apply (search_mono 1000 fuel); [assumption|].
    destruct b; [exact Hr|]. exfalso.
    destruct Hp as (Hl & Hst & _ & _ & I' & Hopen).
    apply connected_reach in Hconn.
    apply (exhausted_no_end a' (0, 999) I' Hopen).
    + rewrite Hl. exact Hk.
    + rewrite Hl, Hst. exact Hconn.
Qed.

(* ================================================================== *)
(** * The reset at the start of [search] *)
(* ================================================================== *)

(** The reset leaves the start node alone in the frontier and the visited
    list empty; the end node is the one the instance had. *)
Lemma search_reset_state (a : AStar) :
  open_list (AStar.search_reset a) = [node_start a] /\
  closed_list (AStar.search_reset a) = [] /\
  node_end (AStar.search_reset a) = node_end a.
Proof. repeat split. Qed.

(** C9 on the code: on the example grid, after a first search that
    returned True, the reset phase of the second call leaves the start
    node alone in the frontier and the visited list empty, and the end
    node still carries the edge to its parent at (1, 4): the node
    [set_edge_to_parent(None)] builds is dropped. *)
Theorem search_reset_keeps_end_edge :
  exists a a1,
    AStar.init example_grid = Ret a /\
    AStar.search 35 a = Ret (true, a1) /\
    open_list (AStar.search_reset a1) = [node_start a1] /\
    closed_list (AStar.search_reset a1) = [] /\
    exists e,
      Node.edge_to_parent (node_end (AStar.search_reset a1)) = Some e /\
      coords (Edge.target e) = (1, 4).
Proof.
  eexists. eexists.
  split; [vm_compute; reflexivity|]. split; [vm_compute; reflexivity|].
  split; [reflexivity|]. split; [reflexivity|].
  eexists. split; reflexivity.
Qed.

(* ================================================================== *)
(** * No exception in the search *)
(* ================================================================== *)

(** C10: during a search on an instance of an accepted grid, every node
    of the frontier, hence every node selected from it, is the start node
    or carries an edge to its parent: the key function and [__calc_g]
    raise on none of them, no call of [__do_search] raises, and the
    visited list of the result, the selected nodes in order, holds such
    nodes only. *)
Theorem frontier_nodes_start_or_edge (arr2d : list (list Z)) (a : AStar) :
  instance arr2d a ->
  (forall fuel e, AStar.search fuel a <> Raise e) /\
  (forall k st,
     calls k (AStar.search_reset a) = Ret (inr st) ->
     Forall (fun n => n = node_start a \/ Node.has_edge_to_parent n = true)
            (open_list st) /\
     (forall n, In n (open_list st) ->
        (exists f, AStar.get_f_or_zero_if_start n = Ret f) /\
        (forall d, exists gc, AStar.calc_g n d = Ret gc)) /\
     (forall e, AStar.do_search_body st <> Raise e)) /\
  (forall fuel b a',
     AStar.search fuel a = Ret (b, a') ->
     Forall (fun n => n = node_start a \/ Node.has_edge_to_parent n = true)
            (closed_list a')).
Proof.
  intros Hinst. pose proof (instance_grid_ok arr2d a Hinst) as G.
  pose proof (search_reset_inv a G) as I.
  split; [|split].
  - intros fuel e H. unfold AStar.search in H.
    destruct (do_search_cases fuel (AStar.search_reset a) I)
      as [Hout | (b & a' & Hret & _)]; congruence.
  - intros k st Hk.
    destruct (calls_inv k _ st I Hk) as (Ist & Hl & Hs & _).
    cbn [layout node_start AStar.search_reset] in Hl, Hs.
    pose proof (inv_grid st Ist) as Gst.
    assert (Hch : forall n, In n (open_list st) ->
                            chain_ok (layout st) (node_start st) n).
    { intros n Hn. pose proof (inv_chain st Ist) as HF.
      rewrite Forall_forall in HF. apply HF. apply in_or_app. auto. }
    split; [|split].
    + apply Forall_forall. intros n Hn. rewrite <- Hs.
      apply (chain_start_or_edge (layout st)). apply Hch. assumption.
    + intros n Hn. split.
      * apply (key_ok st n Gst). apply Hch. assumption.
      * intros d. apply (calc_g_ok st n d Gst). apply Hch. assumption.
    + intros e H. destruct (do_search_body_ok st Ist) as (r & Hr & _). congruence.
  - intros fuel b a' H.
    destruct (search_grid_ok fuel a b a' G H) as (_ & _ & _ & Hch & _).
    cbn [layout node_start AStar.search_reset] in Hch.
    eapply Forall_impl; [|exact Hch].
    intros n Hn. apply (chain_start_or_edge (layout a)). assumption.
Qed.

Lemma frontier_nodes_start_or_edge_witness :
  exists a',
    AStar.search 35 (mkAStar (rows_from 0 example_grid)
                             (mkNode 2 1 START None) (mkNode 2 5 END None)
                             [] []) = Ret (true, a') /\
    Forall (fun n => n = mkNode 2 1 START None \/
                     Node.has_edge_to_parent n = true)
           (closed_list a').
Proof.
  eexists. split; [vm_compute; reflexivity|].
  destruct (frontier_nodes_start_or_edge example_grid
              (mkAStar (rows_from 0 example_grid)
                       (mkNode 2 1 START None) (mkNode 2 5 END None) [] []))
    as (_ & _ & H).
  - apply instance_new. reflexivity.
  - apply (H 35%nat true). vm_compute. reflexivity.
Defined.

(* ================================================================== *)
(** * Further properties of the grid model *)
(* ================================================================== *)

(** X1: a negative code is no member value and is below the maximum, so
    [NodeType.from_value] raises [ValueError] on it. *)
Theorem from_value_negative (v : Z) :
  v < 0 -> NodeType.from_value v = Raise ValueError.
Proof.
  intros Hv. destruct v as [|p|p]; try lia. reflexivity.
Qed.

Lemma from_value_negative_witness :
  NodeType.from_value (-1) = Raise ValueError.
Proof. apply (from_value_negative (-1)). lia. Defined.

(** X2: [__is_in_bounds] raises on no instance value, not even on one
    without rows, where [get_len_y] would: its result is the test of both
    coordinates against the number of rows and the length of the first
    row. *)
Theorem is_in_bounds_never_raises (a : AStar) (i j : Z) :
  AStar.is_in_bounds a i j =
  Ret ((0 <=? i) && (i <? AStar.get_len_x a) &&
       (0 <=? j) && (j <? Z.of_nat (length (hd [] (layout a))))).
Proof.
  unfold AStar.is_in_bounds, AStar.get_len_y, AStar.get_len_x, getitem.
  destruct (layout a) as [|row0 rest]; cbn [nth_error hd length bind].
  - replace ((i <? 0) || (i >? Z.of_nat 0 - 1)) with true.
    + cbn [orb]. f_equal.
      destruct (0 <=? i) eqn:H0; cbn [andb]; [|reflexivity].
      replace (i <? Z.of_nat 0) with false; [reflexivity|].
      symmetry. apply Z.ltb_ge. apply Z.leb_le in H0. lia.
    + symmetry. apply orb_true_iff.
      destruct (Z.ltb_spec i 0); [auto|]. right. apply Z.gtb_lt. lia.
  - destruct (Z.ltb_spec i 0) as [Hi|Hi]; cbn [orb].
    { replace (0 <=? i) with false by (symmetry; apply Z.leb_gt; lia).
      reflexivity. }
    replace (0 <=? i) with true by (symmetry; apply Z.leb_le; lia).
    cbn [andb].
    destruct (i >? Z.of_nat (S (length rest)) - 1) eqn:Hx; cbn [orb].
    { replace (i <? Z.of_nat (S (length rest))) with false; [reflexivity|].
      symmetry. apply Z.ltb_ge. apply Z.gtb_lt in Hx. lia. }
    replace (i <? Z.of_nat (S (length rest))) with true.
    2:{ symmetry. apply Z.ltb_lt.
        destruct (Z.gtb_spec i (Z.of_nat (S (length rest)) - 1)); [discriminate | lia]. }
    cbn [andb].
    destruct (Z.ltb_spec j 0) as [Hj|Hj].
    { replace (0 <=? j) with false by (symmetry; apply Z.leb_gt; lia).
      reflexivity. }
    replace (0 <=? j) with true by (symmetry; apply Z.leb_le; lia).
    cbn [andb]. f_equal.
    destruct (Z.gtb_spec j (Z.of_nat (length row0) - 1));
      destruct (Z.ltb_spec j (Z.of_nat (length row0))); cbn [negb]; try reflexivity; lia.
Qed.

Lemma node_at_in_range (lay : list (list Node)) (i j : Z) :
  rectangular lay ->
  0 <= i < Z.of_nat (length lay) -> 0 <= j < Z.of_nat (length (hd [] lay)) ->
  exists n, node_at lay (i, j) = Some n.
Proof.
  intros Hrect Hi Hj. unfold node_at. cbn [fst snd].
  replace ((0 <=? i) && (0 <=? j)) with true
    by (symmetry; apply andb_true_iff; split; apply Z.leb_le; lia).
  destruct (nth_error_lt_Some lay (Z.to_nat i) ltac:(lia)) as [row Hrow].
  rewrite Hrow.
  assert (Hlen : length row = length (hd [] lay)).
  { unfold rectangular in Hrect. rewrite Forall_forall in Hrect.
    apply Hrect. eapply nth_error_In; eauto. }
  apply nth_error_lt_Some. lia.
Qed.

Lemma node_at_out_of_range (lay : list (list Node)) (i j : Z) :
  rectangular lay ->
  ~ (0 <= i < Z.of_nat (length lay) /\ 0 <= j < Z.of_nat (length (hd [] lay))) ->
  node_at lay (i, j) = None.
Proof.
  intros Hrect Hout. destruct (node_at lay (i, j)) as [n|] eqn:Hn; [|reflexivity].
  exfalso. apply Hout. apply node_at_all_coords in Hn; [|assumption].
  unfold all_coords in Hn. apply in_prod_iff in Hn. destruct Hn as [Hi Hj].
  apply in_map_iff in Hi. destruct Hi as (i' & <- & Hi). apply in_seq in Hi.
  apply in_map_iff in Hj. destruct Hj as (j' & <- & Hj). apply in_seq in Hj.
  lia.
Qed.

(** X3: on every instance of an accepted grid, the bounds-checked lookup
    raises nothing: inside the grid it returns the node stored at the
    coordinates, which carries these coordinates and no edge, and outside
    the grid it returns None. *)
Theorem get_node_or_none_in_and_out
    (arr2d : list (list Z)) (a : AStar) (i j : Z) :
  instance arr2d a ->
  (0 <= i < AStar.get_len_x a /\ 0 <= j < Z.of_nat (length (hd [] (layout a))) ->
   exists t, AStar.get_node_or_none a i j = Ret (Some (mkNode i j t None)) /\
             kind_at (layout a) (i, j) = Some t) /\
  (~ (0 <= i < AStar.get_len_x a /\ 0 <= j < Z.of_nat (length (hd [] (layout a)))) ->
   AStar.get_node_or_none a i j = Ret None).
Proof.
  intros Hinst. pose proof (instance_grid_ok arr2d a Hinst) as G.
  rewrite (get_node_or_none_eq a i j (grid_rect a G)). unfold AStar.get_len_x.
  split.
  - intros [Hi Hj].
    destruct (node_at_in_range (layout a) i j (grid_rect a G) Hi Hj) as [n Hn].
    exists (Node.node_type n). unfold kind_at. rewrite Hn.
    rewrite (grid_cells a G _ _ Hn) at 1. auto.
  - intros Hout. rewrite (node_at_out_of_range _ i j (grid_rect a G) Hout).
    reflexivity.
Qed.

Lemma get_node_or_none_in_and_out_witness :
  AStar.get_node_or_none
    (mkAStar (rows_from 0 example_grid)
             (mkNode 2 1 START None) (mkNode 2 5 END None) [] []) 5 0 =
  Ret None.
Proof.
  apply (get_node_or_none_in_and_out example_grid
           (mkAStar (rows_from 0 example_grid)
                    (mkNode 2 1 START None) (mkNode 2 5 END None) [] []) 5 0).
  - apply instance_new. reflexivity.
  - vm_compute. intros [[_ H] _]. discriminate H.
Defined.

(** Whether the step between two cells changes both coordinates. *)
Definition diagonal_step (p q : Z * Z) : bool :=
  (Z.abs (fst p - fst q) =? 1) && (Z.abs (snd p - snd q) =? 1).

Lemma aligned_coordinates_iff (node : Node) (i j : Z) (d : bool) :
  In (i, j, d) (AStar.aligned_coordinates node) <->
  adjacent8 (coords node) (i, j) /\ d = diagonal_step (coords node) (i, j).
Proof.
  unfold AStar.aligned_coordinates, adjacent8, chebyshev, diagonal_step, coords.
  cbn [fst snd In]. split.
  - intros H.
    repeat (destruct H as [H | H];
            [injection H as <- <- <-; split; [lia|];
             symmetry; first [apply andb_true_iff; split; apply Z.eqb_eq; lia
                             | apply andb_false_iff;
                               first [left; apply Z.eqb_neq; lia
                                     | right; apply Z.eqb_neq; lia]] |]).
    contradiction.
  - intros [Hadj ->].
    destruct (Z.eqb_spec (Z.abs (Node.x node - i)) 1) as [E1|E1],
             (Z.eqb_spec (Z.abs (Node.y node - j)) 1) as [E2|E2]; cbn [andb];
      assert (Hi : i = Node.x node - 1 \/ i = Node.x node \/ i = Node.x node + 1)
        by lia;
      assert (Hj : j = Node.y node - 1 \/ j = Node.y node \/ j = Node.y node + 1)
        by lia;
      destruct Hi as [-> | [-> | ->]], Hj as [-> | [-> | ->]];
      try (exfalso; lia);
      repeat (first [left; reflexivity | right]).
Qed.

(** X4: on every instance of an accepted grid, [__get_neighbours] raises
    nothing and returns at most eight pairs: exactly the nodes the layout
    stores at the cells of the grid at Chebyshev distance 1 from the
    node, each with the flag that tells whether the step to it is
    diagonal. *)
Theorem get_neighbours_exactly_adjacent
    (arr2d : list (list Z)) (a : AStar) (node : Node) :
  instance arr2d a ->
  exists nbs,
    AStar.get_neighbours a node = Ret nbs /\
    (length nbs <= 8)%nat /\
    forall m d,
      In (m, d) nbs <->
      node_at (layout a) (coords m) = Some m /\
      adjacent8 (coords node) (coords m) /\
      d = diagonal_step (coords node) (coords m).
Proof.
  intros Hinst. pose proof (instance_grid_ok arr2d a Hinst) as G.
  exists (neighbours (layout a) node).
  split; [apply get_neighbours_eq; apply G|]. split.
  - unfold neighbours. rewrite length_flat_map.
    unfold AStar.aligned_coordinates. cbn [map fst snd].
    repeat match goal with
           | |- context [node_at ?l ?p] => destruct (node_at l p)
           end; cbn; lia.
  - intros m d. unfold neighbours. rewrite in_flat_map. split.
    + intros ([[i j] d'] & Hc & Hm). cbn [fst snd] in Hm.
      destruct (node_at (layout a) (i, j)) as [n|] eqn:Hn; [|contradiction].
      destruct Hm as [Hm | []]. injection Hm as -> ->.
      rewrite (node_at_coords a _ _ G Hn).
      apply aligned_coordinates_iff in Hc. tauto.
    + intros (Hm & Hadj & ->).
      exists (coords m, diagonal_step (coords node) (coords m)). split.
      * destruct (coords m) as [i j] eqn:Hc. apply aligned_coordinates_iff. auto.
      * cbn [fst snd]. rewrite <- surjective_pairing, Hm. left. reflexivity.
Qed.

Lemma get_neighbours_exactly_adjacent_witness :
  exists nbs,
    AStar.get_neighbours
      (mkAStar (rows_from 0 example_grid)
               (mkNode 2 1 START None) (mkNode 2 5 END None) [] [])
      (mkNode 0 0 BLANK None) = Ret nbs /\
    (length nbs <= 8)%nat /\
    forall m d,
      In (m, d) nbs <->
      node_at (rows_from 0 example_grid) (coords m) = Some m /\
      adjacent8 (0, 0) (coords m) /\
      d = diagonal_step (0, 0) (coords m).
Proof.
  apply (get_neighbours_exactly_adjacent example_grid
           (mkAStar (rows_from 0 example_grid)
                    (mkNode 2 1 START None) (mkNode 2 5 END None) [] [])
           (mkNode 0 0 BLANK None)).
  apply instance_new. reflexivity.
Defined.

(* ================================================================== *)
(** * Further properties of the constructor *)
(* ================================================================== *)

Lemma length_rows_from (arr2d : list (list Z)) :
  forall k, length (rows_from k arr2d) = length arr2d.
Proof. induction arr2d; intros k; simpl; auto. Qed.

Lemma init_rows_long_enough (arr2d : list (list Z)) (a : AStar) :
  AStar.init arr2d = Ret a ->
  arr2d <> [] /\
  Forall (fun row => (length (hd [] arr2d) <= length row)%nat) arr2d.
Proof.
  intros H. destruct (init_accepted arr2d a H) as (Hrect & _ & _).
  split; [intros ->; discriminate|].
  unfold rectangular, read_part in Hrect.
  rewrite Forall_forall in *. intros row Hrow.
  specialize (Hrect (firstn (length (hd [] arr2d)) row) (in_map _ _ _ Hrow)).
  rewrite length_firstn in Hrect.
  destruct arr2d as [|row0 rest]; [contradiction|].
  cbn [map hd] in Hrect. rewrite length_firstn in Hrect. cbn [hd]. lia.
Qed.

(** X5: the instance the constructor returns mirrors the array: as many
    rows as the array, as many columns as its first row, no edge at the
    start and end node, and at every position read the node with that
    position as coordinates, the kind the (non-negative) code decodes to
    and no edge. The two lists are those of the class, which the
    constructor does not touch: they hold what an earlier search, of any
    instance, left in them. *)
Theorem init_layout_mirrors_array
    (shared_open shared_closed : list Node) (arr2d : list (list Z)) (a : AStar) :
  AStar.init_shared shared_open shared_closed arr2d = Ret a ->
  AStar.get_len_x a = Z.of_nat (length arr2d) /\
  AStar.get_len_y a = Ret (Z.of_nat (length (hd [] arr2d))) /\
  open_list a = shared_open /\ closed_list a = shared_closed /\
  Node.edge_to_parent (node_start a) = None /\
  Node.edge_to_parent (node_end a) = None /\
  forall i j row v,
    nth_error arr2d i = Some row -> nth_error row j = Some v ->
    (j < length (hd [] arr2d))%nat ->
    0 <= v /\
    AStar.get_node_or_none a (Z.of_nat i) (Z.of_nat j) =
    Ret (Some (mkNode (Z.of_nat i) (Z.of_nat j) (decode v) None)).
Proof.
  intros Hshared. apply init_shared_init in Hshared.
  destruct Hshared as (a0 & H & ->).
  cbn [open_list closed_list node_start node_end].
  change (AStar.get_len_x (mkAStar (layout a0) (node_start a0) (node_end a0)
                                   shared_open shared_closed))
    with (AStar.get_len_x a0).
  change (AStar.get_len_y (mkAStar (layout a0) (node_start a0) (node_end a0)
                                   shared_open shared_closed))
    with (AStar.get_len_y a0).
  destruct (init_rows_long_enough arr2d a0 H) as (Hne & Hlong).
  destruct (init_accepted arr2d a0 H) as (_ & Hnn & _).
  destruct (init_ok arr2d a0 H) as (G & Hl & He & Ho & Hc).
  split; [|split; [|split; [|split; [|split; [|split]]]]];
    try assumption; try reflexivity.
  - unfold AStar.get_len_x. rewrite Hl, length_rows_from. unfold read_part.
    rewrite length_map. reflexivity.
  - unfold AStar.get_len_y, getitem. rewrite Hl.
    destruct arr2d as [|row0 rest]; [contradiction|].
    unfold read_part. cbn [hd map rows_from nth_error bind].
    rewrite length_row_from, firstn_all. reflexivity.
  - apply (start_no_edge a0 G).
  - intros i j row v Hrow Hv Hj.
    assert (Hrow' : nth_error (read_part arr2d) i =
                    Some (firstn (length (hd [] arr2d)) row)).
    { unfold read_part. rewrite nth_error_map, Hrow. reflexivity. }
    assert (Hv' : nth_error (firstn (length (hd [] arr2d)) row) j = Some v).
    { rewrite nth_error_firstn.
      replace (j <? length (hd [] arr2d))%nat with true
        by (symmetry; apply Nat.ltb_lt; assumption).
      assumption. }
    split.
    + unfold non_negative in Hnn. rewrite Forall_forall in Hnn.
      specialize (Hnn _ (nth_error_In _ _ Hrow')). rewrite Forall_forall in Hnn.
      apply Hnn. eapply nth_error_In; eauto.
    + change (AStar.get_node_or_none
                (mkAStar (layout a0) (node_start a0) (node_end a0)
                         shared_open shared_closed) (Z.of_nat i) (Z.of_nat j))
        with (AStar.get_node_or_none a0 (Z.of_nat i) (Z.of_nat j)).
      rewrite (get_node_or_none_eq a0 _ _ (grid_rect a0 G)), Hl.
      rewrite (rows_from_node_at _ i j _ v Hrow' Hv'). reflexivity.
Qed.

Lemma init_layout_mirrors_array_witness :
  exists a,
    AStar.init_shared [mkNode 4 4 BLANK None] [mkNode 0 1 START None]
                      [[1; 0; 7]; [0; 2; 0; 9]] = Ret a /\
    AStar.get_len_x a = 2 /\ AStar.get_len_y a = Ret 3 /\
    open_list a = [mkNode 4 4 BLANK None] /\
    closed_list a = [mkNode 0 1 START None] /\
    AStar.get_node_or_none a 0 2 = Ret (Some (mkNode 0 2 OBSTACLE None)).
Proof.
  eexists. split; [vm_compute; reflexivity|].
  destruct (init_layout_mirrors_array
              [mkNode 4 4 BLANK None] [mkNode 0 1 START None]
              [[1; 0; 7]; [0; 2; 0; 9]] _
              ltac:(vm_compute; reflexivity))
    as (Hx & Hy & Ho & Hc & _ & _ & Hcell).
  split; [exact Hx|]. split; [exact Hy|]. split; [exact Ho|]. split; [exact Hc|].
  apply (Hcell 0%nat 2%nat [1; 0; 7] 7); [reflexivity | reflexivity | simpl; lia].
Defined.

Lemma from_value_cases (v : Z) :
  (0 <= v /\ NodeType.from_value v = Ret (decode v)) \/
  (v < 0 /\ NodeType.from_value v = Raise ValueError).
Proof.
  destruct (Z.lt_ge_cases v 0) as [H | H].
  - right. split; [assumption|]. destruct v as [|p|p]; try lia. reflexivity.
  - left. split; [assumption | apply from_value_decode; assumption].
Qed.

(** What an exception of the scan of one row tells about the array. *)
Definition scan_raised (arr2d : list (list Z)) (yLen : nat) (e : exn) : Prop :=
  (e = IndexError /\ exists row, In row arr2d /\ (length row < yLen)%nat) \/
  (e = ValueError /\ exists row v, In row arr2d /\ In v row /\ v < 0).

Lemma init_cells_raise (arr2d : list (list Z)) (ix : nat) (line : list Z) :
  nth_error arr2d ix = Some line ->
  forall n k acc,
    match foldM (AStar.init_cell arr2d ix) (seq k n) acc with
    | Ret _ => True
    | Raise e => scan_raised arr2d (k + n) e
    | RecursionError => False
    end.
Proof.
  intros Hline. pose proof (nth_error_In _ _ Hline) as Hin.
  induction n as [|n IH]; intros k acc; [exact I|].
  cbn [seq foldM]. unfold AStar.init_cell at 1. destruct acc as [row [s e]].
  unfold getitem. rewrite Hline. cbn [bind].
  destruct (nth_error line k) as [v|] eqn:Hv; cbn [bind].
  - destruct (from_value_cases v) as [[_ Hf] | [Hneg Hf]]; rewrite Hf; cbn [bind].
    + specialize (IH (S k) (row ++ [mkNode (Z.of_nat ix) (Z.of_nat k) (decode v) None],
                            (if Node.is_start (mkNode (Z.of_nat ix) (Z.of_nat k) (decode v) None)
                             then Some (mkNode (Z.of_nat ix) (Z.of_nat k) (decode v) None) else s,
                             if Node.is_end (mkNode (Z.of_nat ix) (Z.of_nat k) (decode v) None)
                             then Some (mkNode (Z.of_nat ix) (Z.of_nat k) (decode v) None) else e))).
      destruct (foldM _ _ _); try assumption.
      replace (k + S n)%nat with (S k + n)%nat by lia. assumption.
    + right. split; [reflexivity|]. exists line, v.
      split; [assumption|]. split; [eapply nth_error_In; eauto | assumption].
  - left. split; [reflexivity|]. exists line. split; [assumption|].
    apply nth_error_None in Hv. lia.
Qed.

Lemma init_rows_raise (arr2d : list (list Z)) (yLen : nat) :
  forall n k acc,
    (k + n <= length arr2d)%nat ->
    match foldM (AStar.init_row arr2d yLen) (seq k n) acc with
    | Ret _ => True
    | Raise e => scan_raised arr2d yLen e
    | RecursionError => False
    end.
Proof.
  induction n as [|n IH]; intros k acc Hk; [exact I|].
  destruct (nth_error_lt_Some arr2d k ltac:(lia)) as [line Hline].
  cbn [seq foldM]. unfold AStar.init_row at 1. destruct acc as [rows se].
  pose proof (init_cells_raise arr2d k line Hline yLen 0%nat ([], se)) as Hc.
  destruct (foldM (AStar.init_cell arr2d k) (seq 0 yLen) ([], se))
    as [[row se']| e |]; cbn [bind]; [|exact Hc|exact Hc].
  apply IH. lia.
Qed.

Lemma init_scanned (arr2d : list (list Z)) (row0 : list Z) (rest : list (list Z))
    (rows : list (list Node)) (s e : option Node) :
  arr2d = row0 :: rest ->
  foldM (AStar.init_row arr2d (length row0)) (seq 0 (length arr2d))
        ([], (None, None)) = Ret (rows, (s, e)) ->
  non_negative (read_part arr2d) /\
  (s, e) = scan_nodes (concat (rows_from 0 (read_part arr2d))) (None, None).
Proof.
  intros Harr Hfold. apply init_rows_inv in Hfold; [|lia].
  cbn [skipn] in Hfold. rewrite firstn_all in Hfold.
  assert (Hrp : read_part arr2d = map (firstn (length row0)) arr2d).
  { unfold read_part. rewrite Harr. reflexivity. }
  rewrite <- Hrp in Hfold. destruct Hfold as (_ & Hnn & Hr).
  split; [exact Hnn|]. injection Hr as _ Hr. exact Hr.
Qed.

(** X6: the constructor raises nothing but these: [IndexError] when the
    array has no row or a row shorter than the first; [ValueError] when a
    code is negative; the invalid layout error with the text about the
    start when no cell read decodes to Start, and with the text about the
    end when some cell decodes to Start and none to End. *)
Theorem init_raises_only (arr2d : list (list Z)) :
  AStar.init arr2d <> RecursionError /\
  forall e,
    AStar.init arr2d = Raise e ->
    (e = IndexError /\
     (arr2d = [] \/
      exists row, In row arr2d /\ (length row < length (hd [] arr2d))%nat)) \/
    (e = ValueError /\ exists row v, In row arr2d /\ In v row /\ v < 0) \/
    (e = InvalidLayoutInitializationException "No start found." /\
     ~ has_kind START (read_part arr2d)) \/
    (e = InvalidLayoutInitializationException "No end found." /\
     has_kind START (read_part arr2d) /\ ~ has_kind END (read_part arr2d)).
Proof.
  destruct arr2d as [|row0 rest] eqn:Harr.
  { split; [discriminate|]. intros e H; injection H as <-. left. auto. }
  rewrite <- Harr.
  unfold AStar.init, AStar.init_shared.
  replace (getitem arr2d 0) with (Ret row0) by (rewrite Harr; reflexivity).
  cbn [bind]. cbv zeta.
  pose proof (init_rows_raise arr2d (length row0) (length arr2d) 0%nat
                ([], (None, None)) ltac:(lia)) as Hraise.
  destruct (foldM (AStar.init_row arr2d (length row0)) (seq 0 (length arr2d))
                  ([], (None, None))) as [[rows [s e']]| e0 |] eqn:Hfold;
    cbn [bind]; [|split; [discriminate|] | contradiction].
  - destruct (init_scanned arr2d row0 rest rows s e' Harr Hfold) as (Hnn & Hscan).
    pose proof (scan_start_iff _ Hnn) as Hs. pose proof (scan_end_iff _ Hnn) as He.
    rewrite <- Hscan in Hs, He. cbn [fst snd] in Hs, He.
    destruct s as [ns|].
    + destruct e' as [ne|]; (split; [discriminate|]); intros e H;
        [discriminate H | injection H as <-].
      right. right. right. split; [reflexivity|]. split; [|apply He; reflexivity].
      symmetry in Hscan.
      destruct (scan_nodes_start_Some _ _ ns (f_equal fst Hscan))
        as [Hx | [Hin Hst]]; [discriminate|].
      apply (has_kind_nodes START _ Hnn). exists ns. split; [assumption|].
      apply NodeType_eqb_eq. exact Hst.
    + split; [discriminate|]. intros e H; injection H as <-.
      right. right. left. split; [reflexivity | apply Hs; reflexivity].
  - intros e H; injection H as <-. destruct Hraise as [[-> Hrow] | [-> Hv]].
    + left. split; [reflexivity|]. right.
      replace (hd [] arr2d) with row0 by (rewrite Harr; reflexivity). exact Hrow.
    + right. left. auto.
Qed.

Lemma read_part_rectangular (arr2d : list (list Z)) :
  rectangular arr2d -> read_part arr2d = arr2d.
Proof.
  unfold rectangular, read_part. generalize (length (hd [] arr2d)) as len.
  intros len H. induction H as [|row rows Hlen _ IH]; [reflexivity|].
  cbn [map]. rewrite IH, <- Hlen, firstn_all. reflexivity.
Qed.

(** X7: what the constructor rejects before it looks for a start and an
    end: a rectangular array with a negative code raises [ValueError]; an
    array of non-negative codes with a row shorter than the first raises
    [IndexError]. *)
Theorem init_rejects_codes_and_shape (arr2d : list (list Z)) :
  (rectangular arr2d ->
   (exists row v, In row arr2d /\ In v row /\ v < 0) ->
   AStar.init arr2d = Raise ValueError) /\
  (non_negative arr2d ->
   (exists row, In row arr2d /\ (length row < length (hd [] arr2d))%nat) ->
   AStar.init arr2d = Raise IndexError).
Proof.
  assert (Hnonneg : non_negative arr2d ->
                    ~ exists row v, In row arr2d /\ In v row /\ v < 0).
  { unfold non_negative. rewrite Forall_forall.
    intros Hnn (row & v & Hrow & Hv & Hneg).
    specialize (Hnn row Hrow). rewrite Forall_forall in Hnn.
    specialize (Hnn v Hv). lia. }
  assert (Hrectangular : rectangular arr2d ->
            ~ exists row, In row arr2d /\ (length row < length (hd [] arr2d))%nat).
  { unfold rectangular. rewrite Forall_forall.
    intros Hr (row & Hrow & Hlt). specialize (Hr row Hrow). lia. }
  assert (Hcases : (exists row, In row arr2d) ->
            (exists a, AStar.init arr2d = Ret a) \/
            (exists msg, AStar.init arr2d =
                         Raise (InvalidLayoutInitializationException msg) /\
                         non_negative (read_part arr2d) /\
                         rectangular (read_part arr2d) /\
                         Forall (fun row => (length (hd [] arr2d) <= length row)%nat)
                                arr2d) \/
            (AStar.init arr2d = Raise IndexError /\
             exists row, In row arr2d /\ (length row < length (hd [] arr2d))%nat) \/
            (AStar.init arr2d = Raise ValueError /\
             exists row v, In row arr2d /\ In v row /\ v < 0)).
  { intros (r & Hr). destruct arr2d as [|row0 rest] eqn:Harr; [contradiction|].
    rewrite <- Harr in *. clear r Hr.
    assert (Hhd : hd [] arr2d = row0) by (rewrite Harr; reflexivity).
    unfold AStar.init, AStar.init_shared.
    replace (getitem arr2d 0) with (Ret row0) by (rewrite Harr; reflexivity).
    cbn [bind]. cbv zeta.
    pose proof (init_rows_raise arr2d (length row0) (length arr2d) 0%nat
                  ([], (None, None)) ltac:(lia)) as Hraise.
    destruct (foldM (AStar.init_row arr2d (length row0)) (seq 0 (length arr2d))
                    ([], (None, None))) as [[rows [s e']]| e0 |] eqn:Hfold;
      cbn [bind]; [| |contradiction].
    - destruct s as [ns|]; [destruct e' as [ne|]|]; [left; eauto | |];
        right; left; eexists; (split; [reflexivity|]);
        apply init_rows_inv in Hfold; try lia;
        cbn [skipn] in Hfold; rewrite firstn_all in Hfold;
        destruct Hfold as (Hlen & Hnn & _);
        (assert (Hrp : read_part arr2d = map (firstn (length row0)) arr2d)
          by (unfold read_part; rewrite Hhd; reflexivity));
        rewrite <- Hrp in *;
        (split; [exact Hnn|]);
        (assert (Hrect : rectangular (read_part arr2d));
         [ unfold rectangular;
           replace (hd [] (read_part arr2d)) with (firstn (length row0) row0)
             by (rewrite Hrp, Harr; reflexivity);
           rewrite firstn_all; exact Hlen |]);
        (split; [exact Hrect|]);
        rewrite Hhd; rewrite Hrp in Hlen; rewrite Forall_forall in *;
        intros row Hrow;
        specialize (Hlen (firstn (length row0) row) (in_map _ _ _ Hrow));
        rewrite length_firstn in Hlen; lia.
    - destruct Hraise as [[-> Hrow] | [-> Hv]].
      + right. right. left. rewrite Hhd. auto.
      + right. right. right. auto. }
  split.
  - intros Hrect (row & v & Hrow & Hv & Hneg).
    assert (Hbad : exists row v, In row arr2d /\ In v row /\ v < 0) by eauto.
    destruct Hcases as [[a Ha] | [(msg & _ & Hnn & _) | [[_ Hshort] | [H _]]]];
      eauto.
    + apply init_accepted in Ha. destruct Ha as (_ & Hnn & _).
      rewrite (read_part_rectangular _ Hrect) in Hnn. exfalso. apply Hnonneg; auto.
    + rewrite (read_part_rectangular _ Hrect) in Hnn. exfalso. apply Hnonneg; auto.
    + exfalso. apply Hrectangular; auto.
  - intros Hnn (row & Hrow & Hlt).
    assert (Hbad : exists row, In row arr2d /\
                               (length row < length (hd [] arr2d))%nat) by eauto.
    assert (Hlong : Forall (fun row => (length (hd [] arr2d) <= length row)%nat) arr2d ->
                    False).
    { rewrite Forall_forall. intros H. specialize (H row Hrow). lia. }
    destruct Hcases as [[a Ha] | [(msg & _ & _ & _ & Hl) | [[H _] | [_ Hv]]]];
      eauto.
    + apply init_rows_long_enough in Ha. exfalso. tauto.
    + exfalso. tauto.
    + exfalso. apply Hnonneg; auto.
Qed.

Lemma init_rejects_codes_and_shape_witness :
  AStar.init [[1; 2]; [0; -3]] = Raise ValueError /\
  AStar.init [[1; 2; 0]; [0; 0]] = Raise IndexError.
Proof.
  split.
  - apply (init_rejects_codes_and_shape [[1; 2]; [0; -3]]).
    + repeat constructor.
    + exists [0; -3], (-3). simpl. intuition lia.
  - apply (init_rejects_codes_and_shape [[1; 2; 0]; [0; 0]]).
    + repeat constructor; lia.
    + exists [0; 0]. simpl. intuition lia.
Defined.

(** ** The start and end node the constructor records *)

(** The order of the scan: row by row, each row from left to right. *)
Definition row_major_lt (p q : Z * Z) : Prop :=
  fst p < fst q \/ (fst p = fst q /\ snd p < snd q).

Definition node_lt (m n : Node) : Prop := row_major_lt (coords m) (coords n).

Lemma scan_nodes_last_start (nodes : list Node) :
  forall se n,
    fst (scan_nodes nodes se) = Some n ->
    (fst se = Some n /\ Forall (fun m => Node.is_start m = false) nodes) \/
    exists l1 l2, nodes = l1 ++ n :: l2 /\ Node.is_start n = true /\
                  Forall (fun m => Node.is_start m = false) l2.
Proof.
  induction nodes as [|m nodes IH]; intros se n H.
  - left. simpl in H. auto.
  - cbn [scan_nodes fold_left] in H. apply IH in H.
    destruct H as [[Hse HF] | (l1 & l2 & -> & Hn & HF)].
    + unfold scan_node in Hse. cbn [fst] in Hse.
      destruct (Node.is_start m) eqn:Hm.
      * inv Hse. right. exists [], nodes. auto.
      * left. split; [assumption|]. constructor; assumption.
    + right. exists (m :: l1), l2. auto.
Qed.

Lemma scan_nodes_last_end (nodes : list Node) :
  forall se n,
    snd (scan_nodes nodes se) = Some n ->
    (snd se = Some n /\ Forall (fun m => Node.is_end m = false) nodes) \/
    exists l1 l2, nodes = l1 ++ n :: l2 /\ Node.is_end n = true /\
                  Forall (fun m => Node.is_end m = false) l2.
Proof.
  induction nodes as [|m nodes IH]; intros se n H.
  - left. simpl in H. auto.
  - cbn [scan_nodes fold_left] in H. apply IH in H.
    destruct H as [[Hse HF] | (l1 & l2 & -> & Hn & HF)].
    + unfold scan_node in Hse. cbn [snd] in Hse.
      destruct (Node.is_end m) eqn:Hm.
      * inv Hse. right. exists [], nodes. auto.
      * left. split; [assumption|]. constructor; assumption.
    + right. exists (m :: l1), l2. auto.
Qed.

Lemma StronglySorted_app_intro {A : Type} (R : A -> A -> Prop) (l1 l2 : list A) :
  StronglySorted R l1 -> StronglySorted R l2 ->
  (forall a b, In a l1 -> In b l2 -> R a b) ->
  StronglySorted R (l1 ++ l2).
Proof.
  intros H1 H2 H. induction l1 as [|a l1 IH]; [assumption|].
  apply StronglySorted_inv in H1. destruct H1 as [H1 Ha].
  cbn [app]. constructor.
  - apply IH; [assumption|]. intros x y Hx Hy. apply H; [right|]; assumption.
  - apply Forall_app. split; [assumption|].
    apply Forall_forall. intros b Hb. apply H; [left; reflexivity | assumption].
Qed.

Lemma StronglySorted_before {A : Type} (R : A -> A -> Prop) (l1 l2 : list A) (n : A) :
  StronglySorted R (l1 ++ n :: l2) -> Forall (fun m => R m n) l1.
Proof.
  induction l1 as [|a l1 IH]; intros H; [constructor|].
  cbn [app] in H. apply StronglySorted_inv in H. destruct H as [H Ha].
  constructor; [|apply IH; assumption].
  rewrite Forall_forall in Ha. apply Ha. apply in_or_app. right. left. reflexivity.
Qed.

Lemma row_from_sorted (ix : nat) (line : list Z) :
  forall iy,
    StronglySorted node_lt (row_from ix iy line) /\
    Forall (fun m => Node.x m = Z.of_nat ix /\ Z.of_nat iy <= Node.y m)
           (row_from ix iy line).
Proof.
  induction line as [|v line IH]; intros iy; cbn [row_from].
  - split; constructor.
  - destruct (IH (S iy)) as [Hs Hall]. split.
    + constructor; [assumption|]. eapply Forall_impl; [|exact Hall].
      cbn beta. intros m [Hx Hy]. unfold node_lt, row_major_lt, coords.
      cbn [fst snd Node.x Node.y]. lia.
    + constructor; [cbn; lia|]. eapply Forall_impl; [|exact Hall].
      cbn beta. intros m [Hx Hy]. split; [assumption | lia].
Qed.

Lemma rows_from_sorted (arr2d : list (list Z)) :
  forall k,
    StronglySorted node_lt (concat (rows_from k arr2d)) /\
    Forall (fun m => Z.of_nat k <= Node.x m) (concat (rows_from k arr2d)).
Proof.
  induction arr2d as [|line arr IH]; intros k; cbn [rows_from concat].
  - split; constructor.
  - destruct (IH (S k)) as [Hs Hall].
    destruct (row_from_sorted k line 0) as [Hrs Hrall].
    rewrite Forall_forall in Hall, Hrall. split.
    + apply StronglySorted_app_intro; try assumption.
      intros a b Ha Hb. specialize (Hall b Hb). destruct (Hrall a Ha) as [Hx _].
      unfold node_lt, row_major_lt, coords. cbn [fst snd]. lia.
    + apply Forall_app. split; apply Forall_forall; intros m Hm.
      * destruct (Hrall m Hm) as [Hx _]. lia.
      * specialize (Hall m Hm). lia.
Qed.

Lemma node_at_In (lay : list (list Node)) (q : Z * Z) (m : Node) :
  node_at lay q = Some m -> In m (concat lay).
Proof.
  unfold node_at. destruct ((0 <=? fst q) && (0 <=? snd q)); [|discriminate].
  destruct (nth_error lay (Z.to_nat (fst q))) as [row|] eqn:Hrow; [|discriminate].
  intros Hm. apply in_concat. exists row.
  split; eapply nth_error_In; eauto.
Qed.

(** X8: when the array holds several Start or End cells, the constructor
    records the last one of each in the order of the scan: every cell of
    kind Start is the recorded start cell or comes before it in row-major
    order, and likewise for End; the recorded cells have these kinds. *)
Theorem init_records_last_start_and_end (arr2d : list (list Z)) (a : AStar) :
  AStar.init arr2d = Ret a ->
  kind_at (layout a) (coords (node_start a)) = Some START /\
  kind_at (layout a) (coords (node_end a)) = Some END /\
  (forall q, kind_at (layout a) q = Some START ->
             q = coords (node_start a) \/ row_major_lt q (coords (node_start a))) /\
  (forall q, kind_at (layout a) q = Some END ->
             q = coords (node_end a) \/ row_major_lt q (coords (node_end a))).
Proof.
  intros H. destruct (init_ok arr2d a H) as (G & Hl & _).
  destruct (init_accepted arr2d a H) as (Hrect & Hnn & Hinit).
  assert (Hne : exists row0 rest, read_part arr2d = row0 :: rest).
  { destruct (read_part arr2d); [discriminate | eauto]. }
  destruct Hne as (row0 & rest & Hrp).
  rewrite (init_eq _ Hnn row0 rest Hrp Hrect) in Hinit.
  destruct (scan_nodes _ _) as [[ns|] [ne|]] eqn:Hscan; try discriminate.
  injection Hinit as Ha.
  assert (Hns : node_start a = ns) by (rewrite <- Ha; reflexivity).
  assert (Hnd : node_end a = ne) by (rewrite <- Ha; reflexivity).
  clear Ha.
  destruct (rows_from_sorted (read_part arr2d) 0) as [Hsorted _].
  rewrite <- Hl in Hsorted, Hscan.
  assert (Hkind : forall q m, node_at (layout a) q = Some m ->
                              In m (concat (layout a)) /\ coords m = q).
  { intros q m Hm. split; [eapply node_at_In; eauto | eapply node_at_coords; eauto]. }
  split; [|split; [|split]].
  - unfold kind_at. rewrite (grid_start _ G). cbn [option_map].
    rewrite (grid_start_kind _ G). reflexivity.
  - unfold kind_at. rewrite (grid_end _ G). cbn.
    rewrite (grid_end_kind _ G). reflexivity.
  - intros q Hq. unfold kind_at in Hq.
    destruct (node_at (layout a) q) as [m|] eqn:Hm; [|discriminate].
    cbn [option_map] in Hq. injection Hq as Hq.
    destruct (Hkind q m Hm) as [Hin Hc]. rewrite Hns.
    destruct (scan_nodes_last_start _ _ ns (f_equal fst Hscan))
      as [[Hx _] | (l1 & l2 & Hsplit & _ & Hafter)]; [discriminate|].
    rewrite Hsplit in Hin, Hsorted.
    apply in_app_or in Hin. destruct Hin as [Hin | [Hin | Hin]].
    + right. rewrite <- Hc.
      pose proof (StronglySorted_before _ _ _ _ Hsorted) as Hb.
      rewrite Forall_forall in Hb. apply (Hb m Hin).
    + left. rewrite <- Hc, Hin. reflexivity.
    + rewrite Forall_forall in Hafter. specialize (Hafter m Hin).
      unfold Node.is_start in Hafter. rewrite Hq in Hafter. discriminate.
  - intros q Hq. unfold kind_at in Hq.
    destruct (node_at (layout a) q) as [m|] eqn:Hm; [|discriminate].
    cbn [option_map] in Hq. injection Hq as Hq.
    destruct (Hkind q m Hm) as [Hin Hc]. rewrite Hnd.
    destruct (scan_nodes_last_end _ _ ne (f_equal snd Hscan))
      as [[Hx _] | (l1 & l2 & Hsplit & _ & Hafter)]; [discriminate|].
    rewrite Hsplit in Hin, Hsorted.
    apply in_app_or in Hin. destruct Hin as [Hin | [Hin | Hin]].
    + right. rewrite <- Hc.
      pose proof (StronglySorted_before _ _ _ _ Hsorted) as Hb.
      rewrite Forall_forall in Hb. apply (Hb m Hin).
    + left. rewrite <- Hc, Hin. reflexivity.
    + rewrite Forall_forall in Hafter. specialize (Hafter m Hin).
      unfold Node.is_end in Hafter. rewrite Hq in Hafter. discriminate.
Qed.

Lemma init_records_last_start_and_end_witness :
  exists a,
    AStar.init [[1; 2; 0]; [2; 1; 0]] = Ret a /\
    coords (node_start a) = (1, 1) /\ coords (node_end a) = (1, 0) /\
    kind_at (layout a) (coords (node_start a)) = Some START.
Proof.
  eexists. split; [vm_compute; reflexivity|].
  split; [reflexivity|]. split; [reflexivity|].
  apply (init_records_last_start_and_end [[1; 2; 0]; [2; 1; 0]]).
  vm_compute. reflexivity.
Defined.

(* ================================================================== *)
(** * Further properties of the search *)
(* ================================================================== *)

Lemma search_result_reach (fuel : nat) (a : AStar) (b : bool) (a' : AStar) :
  grid_ok a -> AStar.search fuel a = Ret (b, a') ->
  layout a' = layout a /\ node_start a' = node_start a /\
  (b = true <->
   exists q, kind_at (layout a) q = Some END /\
             reach (layout a) (coords (node_start a)) q).
Proof.
  intros G Hs.
  destruct (search_grid_ok fuel a b a' G Hs) as (_ & Hl & Hst & _ & Hb).
  cbn [layout node_start node_end AStar.search_reset] in Hl, Hst, Hb.
  split; [assumption|]. split; [assumption|].
  destruct b.
  - destruct Hb as (Hch & Hend & _). split; [intros _ | reflexivity].
    exists (coords (node_end a')). split.
    + rewrite (kind_at_chain a _ G Hch). f_equal. apply NodeType_eqb_eq. exact Hend.
    + apply chain_reach; assumption.
  - destruct Hb as (_ & I' & Hopen). split; [discriminate|].
    intros (q & Hq & Hreach). exfalso.
    apply (exhausted_no_end a' q I' Hopen); rewrite ?Hl, ?Hst; assumption.
Qed.

(** X9: a search changes neither the layout nor the start node of the
    instance, and a later search on the same instance returns the same
    answer as an earlier one, although the end node keeps the edge of the
    earlier search. *)
Theorem search_again_same_answer
    (arr2d : list (list Z)) (a : AStar) (fuel1 fuel2 : nat)
    (b1 b2 : bool) (a1 a2 : AStar) :
  instance arr2d a ->
  AStar.search fuel1 a = Ret (b1, a1) ->
  AStar.search fuel2 a1 = Ret (b2, a2) ->
  layout a1 = layout a /\ node_start a1 = node_start a /\
  layout a2 = layout a /\ node_start a2 = node_start a /\
  b2 = b1.
Proof.
  intros Hinst H1 H2. pose proof (instance_grid_ok arr2d a Hinst) as G.
  pose proof (instance_grid_ok arr2d a1 (instance_search _ _ _ _ _ Hinst H1)) as G1.
  destruct (search_result_reach fuel1 a b1 a1 G H1) as (Hl1 & Hs1 & Hb1).
  destruct (search_result_reach fuel2 a1 b2 a2 G1 H2) as (Hl2 & Hs2 & Hb2).
  rewrite Hl1, Hs1 in Hb2.
  repeat split; try congruence.
  destruct b1, b2; try reflexivity.
  - apply (proj2 Hb2). apply (proj1 Hb1). reflexivity.
  - symmetry. apply (proj2 Hb1). apply (proj1 Hb2). reflexivity.
Qed.

Lemma search_again_same_answer_witness :
  exists b1 a1 b2 a2,
    AStar.search 35 (mkAStar (rows_from 0 example_grid)
                             (mkNode 2 1 START None) (mkNode 2 5 END None)
                             [] []) = Ret (b1, a1) /\
    AStar.search 35 a1 = Ret (b2, a2) /\
    Node.has_edge_to_parent (node_end a1) = true /\
    b2 = b1.
Proof.
  eexists. eexists. eexists. eexists.
  split; [vm_compute; reflexivity|]. split; [vm_compute; reflexivity|].
  split; [reflexivity|].
  eapply (search_again_same_answer example_grid
            (mkAStar (rows_from 0 example_grid)
                     (mkNode 2 1 START None) (mkNode 2 5 END None) [] [])
            35 35).
  - apply instance_new. reflexivity.
  - vm_compute. reflexivity.
  - vm_compute. reflexivity.
Defined.

Lemma backtrack_walk (a : AStar) (t : Node) :
  grid_ok a -> chain_ok (layout a) (node_start a) t ->
  forall rest,
    walk_ok (layout a) (coords t) rest ->
    exists sc, start_cell (layout a) sc /\
               walk_ok (layout a) sc (rev (AStar.backtrack t) ++ rest).
Proof.
  intros G H. induction H as [|n e He Hat Hobs Hadj Hch IH]; intros rest Hw.
  - destruct (backtrack_spec a (node_start a) G (chain_start _ _)) as (_ & _ & _ & Hnil).
    assert (Hb : AStar.backtrack (node_start a) = []).
    { destruct (AStar.backtrack (node_start a)) as [|p l] eqn:Hb; [reflexivity|].
      exfalso. pose proof (start_no_edge a G) as Hn.
      destruct (node_start a) as [sx sy st se]. simpl in Hn. subst se. discriminate. }
    rewrite Hb. exists (coords (node_start a)). split; [apply Hnil; assumption|].
    exact Hw.
  - assert (Hn : chain_ok (layout a) (node_start a) n) by (econstructor; eauto).
    assert (Hb : AStar.backtrack n =
                 if negb (Node.is_start n)
                 then coords n :: AStar.backtrack (Edge.target e) else []).
    { destruct n as [nx ny nt ne]. simpl in He. subst ne. reflexivity. }
    rewrite Hb. destruct (Node.is_start n) eqn:Hst; cbn [negb].
    + exists (coords n). split; [|exact Hw].
      unfold start_cell. rewrite (kind_at_chain a n G Hn). f_equal.
      apply NodeType_eqb_eq. exact Hst.
    + cbn [rev]. rewrite <- app_assoc. cbn [app]. apply IH.
      cbn [walk_ok]. split; [apply chain_free; assumption|]. auto.
Qed.

Lemma walk_ok_all_free (lay : list (list Node)) (qs : list (Z * Z)) :
  forall p, walk_ok lay p qs -> Forall (fun q => free_cell lay q = true) (p :: qs).
Proof.
  induction qs as [|q qs IH]; intros p H.
  - constructor; [apply H | constructor].
  - destruct H as (Hp & _ & Hq). constructor; [assumption | apply IH; assumption].
Qed.

(** X10: after a search that returned True, a cell of kind Start (the
    start cell when the grid has no other Start cell), then the sequence
    [get_result] returns, then the end cell found form a walk through the
    grid: every cell lies in the grid and is no obstacle, and every step
    goes to an 8-adjacent cell. In particular no coordinate of the result
    is an obstacle or outside the grid. *)
Theorem get_result_is_walk_from_start_to_end
    (arr2d : list (list Z)) (a : AStar) (fuel : nat) (a' : AStar) :
  instance arr2d a -> AStar.search fuel a = Ret (true, a') ->
  exists path sc,
    AStar.get_result a' = Ret path /\
    start_cell (layout a) sc /\
    ((forall s, start_cell (layout a) s -> s = coords (node_start a)) ->
     sc = coords (node_start a)) /\
    walk_ok (layout a) sc (path ++ [coords (node_end a')]) /\
    kind_at (layout a) (coords (node_end a')) = Some END /\
    Forall (fun q => free_cell (layout a) q = true) path.
Proof.
  intros Hinst Hs.
  destruct (search_true_end arr2d a fuel a' Hinst Hs)
    as (G & Hl & Hend & e & He & Hadj & Hch & Hres).
  destruct (search_grid_ok fuel a true a' G Hs) as (_ & _ & _ & _ & Hce & _).
  cbn [layout node_start AStar.search_reset] in Hce.
  destruct (backtrack_walk a _ G Hch [coords (node_end a')]) as (sc & Hsc & Hw).
  { cbn [walk_ok]. split; [apply chain_free; assumption|].
    split; [assumption|]. split; [apply chain_free; assumption | exact I]. }
  exists (rev (AStar.backtrack (Edge.target e))), sc.
  split; [assumption|]. split; [assumption|]. split; [auto|].
  split; [assumption|]. split.
  - rewrite (kind_at_chain a _ G Hce). f_equal. apply NodeType_eqb_eq. exact Hend.
  - apply walk_ok_all_free in Hw. apply Forall_cons_iff in Hw. destruct Hw as [_ Hw].
    apply Forall_app in Hw. tauto.
Qed.

Lemma get_result_is_walk_from_start_to_end_witness :
  exists a' path sc,
    AStar.search 35 (mkAStar (rows_from 0 example_grid)
                             (mkNode 2 1 START None) (mkNode 2 5 END None)
                             [] []) = Ret (true, a') /\
    AStar.get_result a' = Ret path /\
    start_cell (rows_from 0 example_grid) sc /\
    walk_ok (rows_from 0 example_grid) sc (path ++ [coords (node_end a')]).
Proof.
  assert (Hs : exists a',
             AStar.search 35 (mkAStar (rows_from 0 example_grid)
                                      (mkNode 2 1 START None) (mkNode 2 5 END None)
                                      [] []) = Ret (true, a'))
    by (eexists; vm_compute; reflexivity).
  destruct Hs as [a' Hs].
  destruct (get_result_is_walk_from_start_to_end example_grid _ 35 a'
              (instance_new example_grid _ eq_refl) Hs)
    as (path & sc & Hres & Hsc & _ & Hw & _).
  exists a', path, sc. auto.
Defined.

(** X11: when a search returns False, the visited list holds exactly the
    connected component of the start cell: a coordinate is the
    coordinate of a visited node if and only if a sequence of 8-adjacent
    cells, none an obstacle, leads from the start cell to it. *)
Theorem search_false_visits_component
    (arr2d : list (list Z)) (a : AStar) (fuel : nat) (a' : AStar) :
  instance arr2d a -> AStar.search fuel a = Ret (false, a') ->
  open_list a' = [] /\
  forall q, In q (map coords (closed_list a')) <->
            connected (layout a) (coords (node_start a)) q.
Proof.
  intros Hinst Hs. pose proof (instance_grid_ok arr2d a Hinst) as G.
  destruct (search_grid_ok fuel a false a' G Hs) as (_ & Hl & Hst & Hch & _ & I' & Hopen).
  cbn [layout node_start AStar.search_reset] in Hl, Hst, Hch.
  split; [assumption|]. intros q. rewrite connected_reach. split.
  - intros Hq. apply in_map_iff in Hq. destruct Hq as (c & <- & Hc).
    rewrite Forall_forall in Hch. apply chain_reach; auto.
  - intros Hq. apply (exhausted_closed a' q I' Hopen). rewrite Hl, Hst. assumption.
Qed.

Lemma search_false_visits_component_witness :
  exists a',
    AStar.search 6 (mkAStar (rows_from 0 [[1; 0; 3; 2]; [0; 0; 3; 0]])
                            (mkNode 0 0 START None) (mkNode 0 3 END None)
                            [] []) = Ret (false, a') /\
    map coords (closed_list a') = [(0, 0); (0, 1); (1, 1); (1, 0)] /\
    open_list a' = [].
Proof.
  eexists. split; [vm_compute; reflexivity|]. split; [vm_compute; reflexivity|].
  eapply (search_false_visits_component [[1; 0; 3; 2]; [0; 0; 3; 0]]
            (mkAStar (rows_from 0 [[1; 0; 3; 2]; [0; 0; 3; 0]])
                     (mkNode 0 0 START None) (mkNode 0 3 END None) [] []) 6).
  - apply instance_new. reflexivity.
  - vm_compute. reflexivity.
Defined.

Lemma do_search_closed (fuel : nat) :
  forall st b a',
    search_inv st -> AStar.do_search fuel st = Ret (b, a') ->
    (exists l, closed_list a' = closed_list st ++ l) /\
    NoDup (map coords (closed_list a')) /\
    (b = true ->
     exists l0, closed_list a' = l0 ++ [node_end a'] /\
                Forall (fun n => Node.is_end n = false) l0).
Proof.
  induction fuel as [|fuel IH]; intros st b a' I H; [discriminate|].
  cbn [AStar.do_search] in H.
  destruct (do_search_body_ok st I) as (r & Hr & Hcase). rewrite Hr in H.
  cbn [bind] in H.
  pose proof (inv_nodup st I) as Hnd. rewrite map_app in Hnd.
  destruct Hcase as [Hopen | cur l Hin Hend Hch | cur a1 Hin Hend I1 Hl Hs He Hc].
  - injection H as <- <-. split; [exists []; rewrite app_nil_r; reflexivity|].
    split; [eapply NoDup_app_remove_l; eassumption | discriminate].
  - injection H as <- <-. cbn [closed_list node_end].
    split; [eauto|]. split.
    + rewrite map_app. cbn [map].
      apply Permutation_NoDup with (l := coords cur :: map coords (closed_list st)).
      * apply Permutation_cons_append.
      * constructor; [|eapply NoDup_app_remove_l; eassumption].
        apply (NoDup_app_disjoint _ _ _ Hnd). apply in_map. assumption.
    + intros _. exists (closed_list st). split; [reflexivity | apply (inv_closed st I)].
  - destruct (IH a1 b a' I1 H) as ((l & Hl') & Hnd' & Hb).
    split; [|auto]. exists (cur :: l). rewrite Hl', Hc, <- app_assoc. reflexivity.
Qed.

(** X12: the visited list a search leaves behind begins with the start
    node, holds no two nodes with the same coordinates, and every node of
    it stands on a cell that is no obstacle and is connected to the start
    cell; when the search returned True, its last element is the end node
    found and no node before it is of kind End. *)
Theorem search_visited_list
    (arr2d : list (list Z)) (a : AStar) (fuel : nat) (b : bool) (a' : AStar) :
  instance arr2d a -> AStar.search fuel a = Ret (b, a') ->
  (exists rest, closed_list a' = node_start a :: rest) /\
  NoDup (map coords (closed_list a')) /\
  Forall (fun n => free_cell (layout a) (coords n) = true /\
                   connected (layout a) (coords (node_start a)) (coords n))
         (closed_list a') /\
  (b = true ->
   exists l0, closed_list a' = l0 ++ [node_end a'] /\
              Forall (fun n => Node.is_end n = false) l0).
Proof.
  intros Hinst Hs. pose proof (instance_grid_ok arr2d a Hinst) as G.
  pose proof (search_reset_inv a G) as I.
  destruct (search_grid_ok fuel a b a' G Hs) as (_ & _ & _ & Hch & _).
  cbn [layout node_start AStar.search_reset] in Hch.
  unfold AStar.search in Hs.
  destruct (do_search_closed fuel _ b a' I Hs) as (_ & Hnd & Hb).
  split; [|split; [assumption|split; [|assumption]]].
  - destruct fuel as [|fuel]; [discriminate|]. cbn [AStar.do_search] in Hs.
    destruct (do_search_body_ok _ I) as (r & Hr & Hcase). rewrite Hr in Hs.
    cbn [bind] in Hs.
    destruct Hcase as [Hopen | cur l Hin Hend _ | cur a1 Hin Hend I1 Hl Hst He Hc].
    + discriminate Hopen.
    + cbn [open_list AStar.search_reset] in Hin. destruct Hin as [<- | []].
      unfold Node.is_end in Hend. rewrite (grid_start_kind a G) in Hend.
      discriminate.
    + cbn [open_list closed_list AStar.search_reset app] in Hin, Hc.
      destruct Hin as [<- | []].
      destruct (do_search_closed fuel a1 b a' I1 Hs) as ((l & Hl') & _).
      rewrite Hc in Hl'. exists l. exact Hl'.
  - eapply Forall_impl; [|exact Hch]. cbn beta. intros n Hn.
    split; [apply chain_free; assumption|].
    apply connected_reach. apply chain_reach; assumption.
Qed.

Lemma search_visited_list_witness :
  exists a' rest,
    AStar.search 35 (mkAStar (rows_from 0 example_grid)
                             (mkNode 2 1 START None) (mkNode 2 5 END None)
                             [] []) = Ret (true, a') /\
    closed_list a' = mkNode 2 1 START None :: rest.
Proof.
  assert (Hs : exists a',
             AStar.search 35 (mkAStar (rows_from 0 example_grid)
                                      (mkNode 2 1 START None) (mkNode 2 5 END None)
                                      [] []) = Ret (true, a'))
    by (eexists; vm_compute; reflexivity).
  destruct Hs as [a' Hs].
  destruct (search_visited_list example_grid _ 35 true a'
              (instance_new example_grid _ eq_refl) Hs) as ((rest & Hrest) & _).
  exists a', rest. auto.
Defined.

(** X13: equality of nodes looks at the coordinates only. It is
    reflexive, symmetric and transitive, and a node equals every copy of
    itself with another edge, so that the membership test of a list gives
    the same answer for both. *)
Theorem Node_eq_by_coordinates (n m k : Node) (e : option Edge) (l : list Node) :
  Node.eqb n n = true /\
  Node.eqb n m = Node.eqb m n /\
  (Node.eqb n m = true -> Node.eqb m k = true -> Node.eqb n k = true) /\
  Node.eqb (Node.set_edge_to_parent n e) n = true /\
  Node.eqb (Node.set_edge_to_parent n e) m = Node.eqb n m /\
  contains l (Node.set_edge_to_parent n e) = contains l n /\
  (Node.eqb n m = true <-> Node.x n = Node.x m /\ Node.y n = Node.y m).
Proof.
  unfold Node.eqb. destruct n as [nx ny nt ne], m as [mx my mt me], k as [kx ky kt ke].
  cbn [Node.x Node.y Node.set_edge_to_parent].
  split; [rewrite !Z.eqb_refl; reflexivity|].
  split; [rewrite (Z.eqb_sym nx mx), (Z.eqb_sym ny my); reflexivity|].
  split.
  { rewrite !andb_true_iff, !Z.eqb_eq. intros [-> ->] [-> ->]. auto. }
  split; [rewrite !Z.eqb_refl; reflexivity|].
  split; [reflexivity|]. split; [reflexivity|].
  rewrite andb_true_iff, !Z.eqb_eq. tauto.
Qed.

(* ================================================================== *)
(** * The scores stored in the edges *)
(* ================================================================== *)

(** A node whose edge, and the edges of all its ancestors, carry the
    scores [__do_search] computes: the flag tells whether the step from
    the parent is diagonal, [h] is the square root of the squared
    distance to the end cell at [endc], and [g] is 0 when the parent has
    no edge (the parent is the start node) and otherwise the [g] of the
    parent's edge plus 10 for an orthogonal and 14 for a diagonal step. *)
Inductive annotated (endc : Z * Z) : Node -> Prop :=
| annotated_none (n : Node) :
    Node.edge_to_parent n = None -> annotated endc n
| annotated_edge (n : Node) (e : Edge) :
    Node.edge_to_parent n = Some e ->
    Edge.is_diagonal e = diagonal_step (coords (Edge.target e)) (coords n) ->
    Edge.h e =
      PrimFloat.sqrt
        (float_of_Z ((fst endc - Node.x n) * (fst endc - Node.x n) +
                     (snd endc - Node.y n) * (snd endc - Node.y n))) ->
    Edge.g e =
      match Node.edge_to_parent (Edge.target e) with
      | None => 0%float
      | Some pe =>
          (Edge.g pe + (if Edge.is_diagonal e then 14 else 10))%float
      end ->
    annotated endc (Edge.target e) ->
    annotated endc n.

Lemma min_from_Ret_In (key : Node -> outcome float) (l : list Node) :
  forall best kbest n,
    AStar.min_from key best kbest l = Ret n -> n = best \/ In n l.
Proof.
  induction l as [|m l IH]; intros best kbest n H; simpl in H.
  - inv H. auto.
  - destruct (key m) as [k| |]; try discriminate. cbn [bind] in H.
    destruct (k <? kbest)%float; apply IH in H; simpl;
      destruct H as [-> | H]; auto.
Qed.

Lemma min_key_Ret_In (key : Node -> outcome float) (l : list Node) (n : Node) :
  AStar.min_key key l = Ret n -> In n l.
Proof.
  destruct l as [|m l]; simpl; [discriminate|].
  destruct (key m) as [k| |]; try discriminate. cbn [bind].
  intros H. apply min_from_Ret_In in H. destruct H as [-> | H]; auto.
Qed.

Lemma remove_Ret_incl (l : list Node) (n : Node) :
  forall l', remove l n = Ret l' -> incl l' l.
Proof.
  induction l as [|m l IH]; intros l' H; simpl in H; [discriminate|].
  destruct (Node.eqb m n).
  - inv H. apply incl_tl. apply incl_refl.
  - destruct (remove l n) as [l''| |]; try discriminate. cbn [bind] in H. inv H.
    intros x [-> | Hx]; [left; reflexivity | right; apply (IH l'' eq_refl); assumption].
Qed.

Lemma setitem_Ret_In {A : Type} (l : list A) (v : A) :
  forall i l', setitem l i v = Ret l' -> forall x, In x l' -> x = v \/ In x l.
Proof.
  induction l as [|a l IH]; intros i l' H x Hx; [destruct i; discriminate|].
  destruct i as [|i]; simpl in H.
  - inv H. destruct Hx as [<- | Hx]; [auto | right; right; assumption].
  - destruct (setitem l i v) as [l''| |] eqn:Hs; try discriminate.
    cbn [bind] in H. inv H. destruct Hx as [<- | Hx]; [right; left; reflexivity|].
    destruct (IH i l'' Hs x Hx); [auto | right; right; assumption].
Qed.

Lemma calc_g_value (cur : Node) (d : bool) (gc : float) :
  AStar.calc_g cur d = Ret gc ->
  gc = match Node.edge_to_parent cur with
       | None => 0%float
       | Some pe => (Edge.g pe + (if d then 14 else 10))%float
       end.
Proof.
  unfold AStar.calc_g, Node.has_edge_to_parent, Node.the_edge.
  destruct (Node.edge_to_parent cur) as [pe|]; cbn [negb andb bind].
  - intros H. inv H. reflexivity.
  - destruct (NodeType.eqb (Node.node_type cur) START); intros H; inv H. reflexivity.
Qed.

(** What one round of the loop over the neighbours leaves as it is. *)
Definition visit_frame (a a' : AStar) : Prop :=
  layout a' = layout a /\ node_start a' = node_start a /\
  node_end a' = node_end a /\ closed_list a' = closed_list a.

Lemma visit_annotated (a : AStar) (cur : Node) (nb : Node * bool) (a' : AStar) :
  grid_ok a -> AStar.visit cur a nb = Ret a' ->
  In nb (neighbours (layout a) cur) ->
  annotated (coords (node_end a)) cur ->
  Forall (annotated (coords (node_end a))) (open_list a) ->
  visit_frame a a' /\ Forall (annotated (coords (node_end a))) (open_list a').
Proof.
  intros G Hv Hnb Hcur Hopen. destruct nb as [m d].
  assert (Hd : d = diagonal_step (coords cur) (coords m)).
  { unfold neighbours in Hnb. apply in_flat_map in Hnb.
    destruct Hnb as ([[i j] d'] & Hc & Hm). cbn [fst snd] in Hm.
    destruct (node_at (layout a) (i, j)) as [n|] eqn:Hn; [|contradiction].
    destruct Hm as [Hm | []]. injection Hm as -> ->.
    rewrite (node_at_coords a _ _ G Hn).
    apply aligned_coordinates_iff in Hc. tauto. }
  unfold AStar.visit in Hv.
  destruct (Node.is_obstacle m || contains (closed_list a) m).
  { inv Hv. split; [repeat split | assumption]. }
  destruct (AStar.calc_g cur d) as [gc| |] eqn:Hg; try discriminate.
  cbn [bind] in Hv. cbv zeta in Hv.
  set (nwe := Node.set_edge_to_parent m
                (Some (mkEdge cur gc (AStar.calc_h a m) d))) in *.
  assert (Hnwe : annotated (coords (node_end a)) nwe).
  { apply annotated_edge with (e := mkEdge cur gc (AStar.calc_h a m) d).
    - reflexivity.
    - exact Hd.
    - reflexivity.
    - cbn [Edge.target Edge.g Edge.is_diagonal]. apply calc_g_value. exact Hg.
    - exact Hcur. }
  destruct (contains (open_list a) nwe); cbn [negb] in Hv.
  - destruct (index (open_list a) nwe) as [i| |]; try discriminate.
    cbn [bind] in Hv.
    destruct (Node.the_edge nwe) as [e1| |]; try discriminate. cbn [bind] in Hv.
    destruct (getitem (open_list a) i) as [other| |]; try discriminate.
    cbn [bind] in Hv.
    destruct (Node.the_edge other) as [e2| |]; try discriminate. cbn [bind] in Hv.
    destruct (Edge.g e1 <? Edge.g e2)%float.
    + destruct (setitem (open_list a) i nwe) as [l| |] eqn:Hset; try discriminate.
      cbn [bind] in Hv. injection Hv as <-.
      split; [repeat split|]. cbn [open_list AStar.set_open_list].
      apply Forall_forall. intros x Hx.
      destruct (setitem_Ret_In _ _ _ _ Hset x Hx) as [-> | Hin]; [assumption|].
      rewrite Forall_forall in Hopen. auto.
    + injection Hv as <-. split; [repeat split | assumption].
  - injection Hv as <-. split; [repeat split|].
    cbn [open_list AStar.set_open_list]. apply Forall_app. split; [assumption|].
    constructor; [assumption | constructor].
Qed.

Lemma visits_annotated (cur : Node) (nbs : list (Node * bool)) :
  forall a a',
    grid_ok a -> foldM (AStar.visit cur) nbs a = Ret a' ->
    incl nbs (neighbours (layout a) cur) ->
    annotated (coords (node_end a)) cur ->
    Forall (annotated (coords (node_end a))) (open_list a) ->
    visit_frame a a' /\ Forall (annotated (coords (node_end a))) (open_list a').
Proof.
  induction nbs as [|nb nbs IH]; intros a a' G H Hincl Hcur Hopen.
  - simpl in H. inv H. split; [repeat split | assumption].
  - cbn [foldM] in H.
    destruct (AStar.visit cur a nb) as [a1| |] eqn:Hv; try discriminate.
    cbn [bind] in H.
    destruct (visit_annotated a cur nb a1 G Hv (Hincl nb (or_introl eq_refl))
                Hcur Hopen) as ((Hl & Hs & He & Hc) & Hopen1).
    assert (G1 : grid_ok a1) by (eapply grid_ok_frame; eauto).
    destruct (IH a1 a' G1 H) as ((Hl' & Hs' & He' & Hc') & Hopen').
    + rewrite Hl. intros x Hx. apply Hincl. right. assumption.
    + rewrite He. assumption.
    + rewrite He. assumption.
    + split; [repeat split; congruence|]. rewrite <- He. assumption.
Qed.

Lemma do_search_annotated (fuel : nat) :
  forall a b a',
    grid_ok a -> AStar.do_search fuel a = Ret (b, a') ->
    Forall (annotated (coords (node_end a))) (open_list a ++ closed_list a) ->
    Forall (annotated (coords (node_end a))) (open_list a' ++ closed_list a') /\
    annotated (coords (node_end a)) (node_end a') \/
    Forall (annotated (coords (node_end a))) (open_list a' ++ closed_list a') /\
    b = false /\ node_end a' = node_end a.
Proof.
  induction fuel as [|fuel IH]; intros a b a' G H Hall; [discriminate|].
  cbn [AStar.do_search] in H. unfold AStar.do_search_body in H.
  destruct (length (open_list a) <=? 0)%nat.
  { cbn [bind] in H. inv H. right. auto. }
  destruct (AStar.min_key _ _) as [cur| |] eqn:Hmin; try discriminate.
  cbn [bind] in H.
  destruct (remove (open_list a) cur) as [l| |] eqn:Hrem; try discriminate.
  cbn [bind] in H. cbv zeta in H.
  apply min_key_Ret_In in Hmin. apply remove_Ret_incl in Hrem.
  apply Forall_app in Hall. destruct Hall as [Hopen Hclosed].
  assert (Hcur : annotated (coords (node_end a)) cur).
  { rewrite Forall_forall in Hopen. auto. }
  assert (Hl : Forall (annotated (coords (node_end a))) l).
  { rewrite Forall_forall in *. auto. }
  assert (Hc : Forall (annotated (coords (node_end a))) (closed_list a ++ [cur])).
  { apply Forall_app. split; [assumption | constructor; auto]. }
  destruct (Node.is_end cur).
  { cbn [bind] in H. inv H. left.
    cbn [open_list closed_list node_end AStar.set_node_end AStar.set_closed_list
           AStar.set_open_list].
    split; [apply Forall_app; auto | assumption]. }
  set (a1 := AStar.set_closed_list (AStar.set_open_list a l)
                                   (closed_list a ++ [cur])) in *.
  assert (G1 : grid_ok a1) by (eapply grid_ok_frame; [| | | exact G]; reflexivity).
  rewrite (get_neighbours_eq a1 cur (grid_rect a1 G1)) in H. cbn [bind] in H.
  destruct (foldM (AStar.visit cur) (neighbours (layout a1) cur) a1)
    as [a2| |] eqn:Hfold; try discriminate.
  cbn [bind] in H.
  destruct (visits_annotated cur _ a1 a2 G1 Hfold (incl_refl _) Hcur Hl)
    as ((Hl2 & Hs2 & He2 & Hc2) & Hopen2).
  change (node_end a1) with (node_end a) in *.
  change (closed_list a1) with (closed_list a ++ [cur]) in *.
  assert (G2 : grid_ok a2) by (eapply grid_ok_frame; eauto).
  specialize (IH a2 b a' G2 H). rewrite He2 in IH. apply IH.
  apply Forall_app. split; [assumption|]. rewrite Hc2. assumption.
Qed.

(** X14: after a search, every visited node, and the end node when the
    search returned True, carries consistent scores all along its chain
    of parents: the diagonal flag of an edge tells whether the step from
    the parent changes both coordinates; [h] is the square root, in
    floating point, of the squared distance to the end cell recorded
    before the search; [g] is 0 on the edges whose parent is the start
    node and otherwise the parent's [g] plus 10 for an orthogonal and 14
    for a diagonal step. *)
Theorem search_scores_consistent
    (arr2d : list (list Z)) (a : AStar) (fuel : nat) (b : bool) (a' : AStar) :
  instance arr2d a -> AStar.search fuel a = Ret (b, a') ->
  Forall (annotated (coords (node_end a))) (closed_list a') /\
  (b = true -> annotated (coords (node_end a)) (node_end a')).
Proof.
  intros Hinst Hs. pose proof (instance_grid_ok arr2d a Hinst) as G.
  assert (G0 : grid_ok (AStar.search_reset a))
    by (eapply grid_ok_frame; [| | | exact G]; reflexivity).
  unfold AStar.search in Hs.
  destruct (do_search_annotated fuel _ b a' G0 Hs) as [[Hall He] | (Hall & -> & He)].
  - cbn [open_list closed_list AStar.search_reset app].
    constructor; [|constructor]. apply annotated_none. apply (start_no_edge a G).
  - cbn [node_end AStar.search_reset] in *. apply Forall_app in Hall. tauto.
  - cbn [node_end AStar.search_reset] in *. apply Forall_app in Hall.
    split; [tauto | discriminate].
Qed.

Lemma search_scores_consistent_witness :
  exists a',
    AStar.search 35 (mkAStar (rows_from 0 example_grid)
                             (mkNode 2 1 START None) (mkNode 2 5 END None)
                             [] []) = Ret (true, a') /\
    annotated (2, 5) (node_end a').
Proof.
  assert (Hs : exists a',
             AStar.search 35 (mkAStar (rows_from 0 example_grid)
                                      (mkNode 2 1 START None) (mkNode 2 5 END None)
                                      [] []) = Ret (true, a'))
    by (eexists; vm_compute; reflexivity).
  destruct Hs as [a' Hs]. exists a'. split; [exact Hs|].
  apply (search_scores_consistent example_grid _ 35 true a'
           (instance_new example_grid _ eq_refl) Hs). reflexivity.
Defined.
